(** * appletv2mqtt: the bridge of [src/main.py], embedded and verified

    The Python program is embedded shallowly.  JSON payloads are values of
    an inductive type, the module-level globals ([config], [atv],
    [mqtt_client]) are a record read by every function, and the effects
    (device calls, bus calls, sleeps, log records) are events appended to a
    history.  What the device and the broker answer is not decided by the
    program: it is read from an oracle indexed by the history so far, so a
    theorem quantified over oracles covers every behaviour of the two
    endpoints.  Exceptions are those of Python's class [Exception]; task
    cancellation is outside the model. *)

From Stdlib Require Import String Ascii List ZArith Bool Lia.
From Stdlib Require Import Floats.SpecFloat.
From Stdlib Require DecimalString.
Import ListNotations.

Local Open Scope string_scope.
Local Open Scope Z_scope.
Local Open Scope list_scope.

Set Warnings "-register-all".

(* ===================================================================== *)
(** * Python values *)
(* ===================================================================== *)

(** What [json.loads] returns.  A dict keeps its insertion order, as in
    Python; numbers are [int] or [float] (IEEE binary64). *)
Inductive json : Type :=
| JNull
| JBool (b : bool)
| JInt (n : Z)
| JFloat (f : spec_float)
| JStr (s : string)
| JArr (l : list json)
| JObj (d : list (string * json)).

Definition dict : Type := list (string * json).

(** An exception object: its class and its message. *)
Inductive exn : Type := Exn (cls msg : string).

(** Python truth value, [bool(v)]. *)
Definition truthy (v : json) : bool :=
  match v with
  | JNull => false
  | JBool b => b
  | JInt n => negb (n =? 0)
  | JFloat (S754_zero _) => false
  | JFloat _ => true
  | JStr s => negb (s =? "")%string
  | JArr l => match l with [] => false | _ :: _ => true end
  | JObj d => match d with [] => false | _ :: _ => true end
  end.

(** [v == 'lit'] for a string literal: only a [str] equals a [str]. *)
Definition str_eq (v : json) (lit : string) : bool :=
  match v with
  | JStr s => (s =? lit)%string
  | _ => false
  end.

(** [v in ('a', 'b', ...)] *)
Definition str_in (v : json) (lits : list string) : bool :=
  existsb (str_eq v) lits.

(** [d.get(k)] as an option ([None] of Python is the caller's default). *)
Fixpoint dict_lookup (k : string) (d : dict) : option json :=
  match d with
  | [] => None
  | (k', v) :: d' => if (k' =? k)%string then Some v else dict_lookup k d'
  end.

(** [d.get(k, default)] *)
Definition dict_get (k : string) (default : json) (d : dict) : json :=
  match dict_lookup k d with
  | Some v => v
  | None => default
  end.

(** [d.pop(k, default)]: the value and the dict without the key. *)
Definition dict_pop (k : string) (default : json) (d : dict) : json * dict :=
  (dict_get k default d, filter (fun kv => negb (fst kv =? k)%string) d).

(** [d[k] = v]: an existing key keeps its place, a new one goes last. *)
Fixpoint dict_set (k : string) (v : json) (d : dict) : dict :=
  match d with
  | [] => [(k, v)]
  | (k', v') :: d' =>
      if (k' =? k)%string then (k, v) :: d' else (k', v') :: dict_set k v d'
  end.

(** The characters of a string, each as a string of length one. *)
Fixpoint chars (s : string) : list json :=
  match s with
  | EmptyString => []
  | String c s' => JStr (String c EmptyString) :: chars s'
  end.

(** [for x in v]: the items a [for] loop visits, or the [TypeError] raised
    by [iter(v)]. *)
Definition py_iter (v : json) : exn + list json :=
  match v with
  | JArr l => inr l
  | JStr s => inr (chars s)
  | JObj d => inr (map (fun kv => JStr (fst kv)) d)
  | _ => inl (Exn "TypeError" "object is not iterable")
  end.

(** [s.split('.')[-1]]: what follows the last dot. *)
Fixpoint last_segment_from (acc s : string) : string :=
  match s with
  | EmptyString => acc
  | String c s' =>
      if (c =? ".")%char then last_segment_from s' s' else last_segment_from acc s'
  end.

Definition last_segment (s : string) : string := last_segment_from s s.

(** [s.upper()] on ASCII letters (other characters are kept). *)
Definition upper_char (c : ascii) : ascii :=
  let n := nat_of_ascii c in
  if (Nat.leb 97 n && Nat.leb n 122)%bool then ascii_of_nat (n - 32) else c.

Fixpoint upper (s : string) : string :=
  match s with
  | EmptyString => EmptyString
  | String c s' => String (upper_char c) (upper s')
  end.

(** An f-string field for an [Optional[str]]: [None] prints as "None". *)
Definition fstr (o : option string) : string :=
  match o with
  | Some s => s
  | None => "None"
  end.

(* ===================================================================== *)
(** * Configuration *)
(* ===================================================================== *)

(** The process environment after [load_dotenv()], as [os.getenv] sees it. *)
Definition Env : Type := string -> option string.

(** How the start of the process ends: with a value, with [sys.exit], or
    with an exception. *)
Inductive Startup (A : Type) : Type :=
| Started (a : A)
| SysExit (code : Z) (printed : list string)
| StartupError (e : exn).

Arguments Started {A} a.
Arguments SysExit {A} code printed.
Arguments StartupError {A} e.

Module Config.

Record t : Type := {
  mqtt_host : option string;
  mqtt_port : Z;
  mqtt_user : option string;
  mqtt_password : option string;
  mqtt_qos : Z;
  mqtt_base_topic : option string;
  appletv_id : option string;
  appletv_credentials : option string;
  appletv_address : option string;
  state_update_interval : Z;
  apps_update_interval : Z;
  mqtt_reconnect_delay : Z;
  appletv_reconnect_delay : Z;
  log_level : string
}.

Definition REQUIRED_VARS : list string :=
  [ "MQTT_HOST"; "MQTT_PORT"; "MQTT_USER"; "MQTT_PASSWORD"; "MQTT_QOS";
    "MQTT_BASE_TOPIC";
    "APPLETV_ID"; "APPLETV_CREDENTIALS"; "APPLETV_ADDRESS";
    "STATE_UPDATE_INTERVAL"; "APPS_UPDATE_INTERVAL";
    "MQTT_RECONNECT_DELAY"; "APPLETV_RECONNECT_DELAY";
    "LOG_LEVEL" ].

(** [not os.getenv(var)]: unset, or set to the empty string. *)
Definition not_getenv (env : Env) (var : string) : bool :=
  match env var with
  | None => true
  | Some s => (s =? "")%string
  end.

Definition missing (env : Env) : list string :=
  filter (not_getenv env) REQUIRED_VARS.

Definition _validate (env : Env) : Startup unit :=
  match missing env with
  | [] => Started tt
  | m =>
      SysExit 1
        [ ("ERROR: Missing required environment variables: " ++ String.concat ", " m)%string;
          "Please check your .env file. See .env.example for reference." ]
  end.

Section Load.

(** [int(s)] of Python on a string: the integer, or [None] for the
    [ValueError]. *)
Variable py_int : string -> option Z.

Definition int_getenv (env : Env) (var : string) : exn + Z :=
  match env var with
  | None => inl (Exn "TypeError" "int() argument must be a string, not 'NoneType'")
  | Some s =>
      match py_int s with
      | Some z => inr z
      | None => inl (Exn "ValueError" "invalid literal for int()")
      end
  end.

Definition with_int {A : Type} (r : exn + Z) (k : Z -> exn + A) : exn + A :=
  match r with
  | inl e => inl e
  | inr z => k z
  end.

Definition _load (env : Env) : exn + t :=
  with_int (int_getenv env "MQTT_PORT") (fun port =>
  with_int (int_getenv env "MQTT_QOS") (fun qos =>
  with_int (int_getenv env "STATE_UPDATE_INTERVAL") (fun state_iv =>
  with_int (int_getenv env "APPS_UPDATE_INTERVAL") (fun apps_iv =>
  with_int (int_getenv env "MQTT_RECONNECT_DELAY") (fun mqtt_delay =>
  with_int (int_getenv env "APPLETV_RECONNECT_DELAY") (fun atv_delay =>
  inr {| mqtt_host := env "MQTT_HOST";
         mqtt_port := port;
         mqtt_user := env "MQTT_USER";
         mqtt_password := env "MQTT_PASSWORD";
         mqtt_qos := qos;
         mqtt_base_topic := env "MQTT_BASE_TOPIC";
         appletv_id := env "APPLETV_ID";
         appletv_credentials := env "APPLETV_CREDENTIALS";
         appletv_address := env "APPLETV_ADDRESS";
         state_update_interval := state_iv;
         apps_update_interval := apps_iv;
         mqtt_reconnect_delay := mqtt_delay;
         appletv_reconnect_delay := atv_delay;
         log_level :=
           upper (match env "LOG_LEVEL" with Some s => s | None => "INFO" end)
      |})))))).

(** [Config()]: validate, then load. *)
Definition __init__ (env : Env) : Startup t :=
  match _validate env with
  | Started _ =>
      match _load env with
      | inr c => Started c
      | inl e => StartupError e
      end
  | SysExit code printed => SysExit code printed
  | StartupError e => StartupError e
  end.

End Load.

Definition topic_availability (c : t) : string :=
  (fstr (mqtt_base_topic c) ++ "/availability")%string.
Definition topic_state (c : t) : string :=
  (fstr (mqtt_base_topic c) ++ "/state")%string.
Definition topic_apps (c : t) : string :=
  (fstr (mqtt_base_topic c) ++ "/apps")%string.
Definition topic_set (c : t) : string :=
  (fstr (mqtt_base_topic c) ++ "/set")%string.
Definition topic_get (c : t) : string :=
  (fstr (mqtt_base_topic c) ++ "/get")%string.

End Config.

(* ===================================================================== *)
(** * The two endpoints, the events and the globals *)
(* ===================================================================== *)

(** A member of a pyatv enumeration, as far as the bridge looks at it: its
    [str()] (such as "DeviceState.Playing") and its truth value. *)
Record PyEnum : Type := { enum_str : string; enum_truthy : bool }.

(** The object returned by [atv.metadata.playing()]. *)
Record Playing : Type := {
  media_type : option PyEnum;
  device_state : option PyEnum;
  title : json;
  artist : json;
  album : json;
  genre : json;
  position : json;
  total_time : json;
  repeat : option PyEnum;
  shuffle : option PyEnum
}.

(** An app of the device: [app.name] and [app.identifier]. *)
Record App : Type := { app_name : json; app_identifier : json }.

(** The device session [atv]: which optional interfaces it has
    ([hasattr(atv, 'power') and atv.power], and so on). *)
Record Device : Type := { has_power : bool; has_apps : bool; has_stream : bool }.

(** The paho client object. *)
Inductive Client : Type := PahoClient.

(** Calls into the Device Client. *)
Inductive DevCall : Type :=
| RcUp | RcDown | RcLeft | RcRight | RcSelect | RcMenu | RcHome
| RcPlay | RcPause | RcPlayPause | RcStop | RcNext | RcPrevious
| PowerTurnOn | PowerTurnOff
| AppsLaunchApp (app_id : json)
| StreamPlayUrl (url : json)
| MetadataPlaying
| MetadataApp
| PowerPowerState
| AppsAppList
| AtvClose.

(** Calls into the Pub/Sub Client. *)
Inductive BusCall : Type :=
| NewClient (client_id : string)
| UsernamePwSet (user password : option string)
| WillSet (topic payload : string) (qos : Z) (retain : bool)
| Subscribe (topic : string) (qos : Z)
| Publish (topic payload : string) (qos : Z) (retain : bool)
| LoopStop
| Disconnect.

Inductive Level : Type := Debug | Info | Warning | Error.

Inductive TaskName : Type := StateTask | AppsTask | CommandTask.

(** One entry of [command_queue]. *)
Record InboundMessage : Type := { msg_topic : string; msg_payload : string }.

(** The log records of the program, one constructor per call site. *)
Inductive LogMsg : Type :=
| MsgConnected (host : option string) (port : Z)
| MsgSubscribed (set_topic get_topic : string)
| MsgConnectFailed (reason_code : Z)
| MsgPublished (topic payload_head : string)
| MsgNotConnected
| MsgPublishError (e : exn)
| MsgState (state : dict)
| MsgStateError (e : exn)
| MsgTraceback
| MsgApps (count : nat)
| MsgAppsError (e : exn)
| MsgNoDevice
| MsgUnknownAction (action : json)
| MsgExecuted (action : json)
| MsgCommandError (action : json) (e : exn)
| MsgStateTaskStarted (interval : Z)
| MsgStateTaskError (e : exn)
| MsgAppsTaskStarted (interval : Z)
| MsgAppsTaskError (e : exn)
| MsgHandlerStarted
| MsgInvalidJson (payload : string)
| MsgForcedUpdate (get_type : json)
| MsgHandlerError (e : exn)
| MsgDeviceConnectFailed
| MsgShuttingDown
| MsgDeviceClosed
| MsgBusDisconnected
| MsgShutdownComplete.

(** What the program does to the outside, in the order it does it. *)
Inductive Event : Type :=
| EDev (c : DevCall)
| EBus (c : BusCall)
| ESleep (milliseconds : Z)
| ELog (lvl : Level) (msg : LogMsg)
| EQueueGet (r : option InboundMessage)
| ETaskCancel (t : TaskName)
| EGather.

(** The globals of the module together with the environment.  The answers
    of the device, of the broker, of the queue and of the shutdown flag
    depend on the history, not on the program. *)
Record World : Type := {
  config : Config.t;
  atv : option Device;
  mqtt_client : option Client;
  env_playing : list Event -> exn + Playing;
  env_app : list Event -> exn + option App;
  env_power_state : list Event -> exn + PyEnum;
  env_app_list : list Event -> exn + list App;
  env_device_raises : list Event -> DevCall -> option exn;
  env_is_connected : list Event -> bool;
  env_bus_raises : list Event -> BusCall -> option exn;
  env_queue_get : list Event -> option InboundMessage;
  env_shutdown_is_set : list Event -> bool;
  json_loads : string -> exn + json;
  json_dumps : json -> string
}.

(* ===================================================================== *)
(** * The monad of the program *)
(* ===================================================================== *)

(** A computation ends with a value, with an exception, or without fuel
    (the bounded loops and the bounded recursion below). *)
Inductive result (A : Type) : Type :=
| Ret (a : A)
| Raise (e : exn)
| OutOfFuel.

Arguments Ret {A} a.
Arguments Raise {A} e.
Arguments OutOfFuel {A}.

(** A computation reads the history and answers with the events it adds. *)
Definition M (A : Type) : Type := list Event -> list Event * result A.

Definition ret {A : Type} (a : A) : M A := fun _ => ([], Ret a).

Definition bind {A B : Type} (m : M A) (k : A -> M B) : M B :=
  fun h =>
    match m h with
    | (t1, Ret a) => let (t2, r) := k a (h ++ t1) in (t1 ++ t2, r)
    | (t1, Raise e) => (t1, Raise e)
    | (t1, OutOfFuel) => (t1, OutOfFuel)
    end.

Definition emit (e : Event) : M unit := fun _ => ([e], Ret tt).

Definition raise {A : Type} (e : exn) : M A := fun _ => ([], Raise e).

Definition out_of_fuel {A : Type} : M A := fun _ => ([], OutOfFuel).

(** [try: body / except Exception as e: handler e] *)
Definition try_except {A : Type} (body : M A) (handler : exn -> M A) : M A :=
  fun h =>
    match body h with
    | (t1, Raise e) => let (t2, r) := handler e (h ++ t1) in (t1 ++ t2, r)
    | other => other
    end.

(** A value or an exception computed without effect. *)
Definition lift {A : Type} (r : exn + A) : M A :=
  match r with
  | inl e => raise e
  | inr a => ret a
  end.

(** A question to the environment. *)
Definition ask {A : Type} (f : list Event -> A) : M A := fun h => ([], Ret (f h)).

Notation "x <- m ;; k" := (bind m (fun x => k))
  (at level 61, m at next level, right associativity).
Notation "m ;; k" := (bind m (fun _ => k))
  (at level 61, right associativity).

(** [for x in xs: body x] *)
Fixpoint for_each {A : Type} (xs : list A) (body : A -> M unit) : M unit :=
  match xs with
  | [] => ret tt
  | x :: xs' => body x ;; for_each xs' body
  end.

(** The events a computation adds, and how it ends. *)
Definition emitted {A : Type} (m : M A) (h : list Event) : list Event := fst (m h).
Definition outcome {A : Type} (m : M A) (h : list Event) : result A := snd (m h).

(* ===================================================================== *)
(** * The functions of [main.py] *)
(* ===================================================================== *)

Section Bridge.

Variable w : World.

Let cfg : Config.t := config w.

(** [logger.debug], [logger.info], [logger.warning], [logger.error] *)
Definition logger (lvl : Level) (msg : LogMsg) : M unit := emit (ELog lvl msg).

(** A call of a bus client method, which may raise. *)
Definition bus (c : BusCall) : M unit :=
  fun h =>
    ([EBus c],
     match env_bus_raises w h c with
     | None => Ret tt
     | Some e => Raise e
     end).

(** An awaited call of a device method without result, which may raise. *)
Definition dev (c : DevCall) : M unit :=
  fun h =>
    ([EDev c],
     match env_device_raises w h c with
     | None => Ret tt
     | Some e => Raise e
     end).

(** A device call or property read with a result. *)
Definition dev_read {A : Type} (c : DevCall) (answer : list Event -> exn + A) : M A :=
  fun h =>
    ([EDev c],
     match answer h with
     | inr a => Ret a
     | inl e => Raise e
     end).

(** [await asyncio.sleep(seconds)], in milliseconds. *)
Definition sleep (milliseconds : Z) : M unit := emit (ESleep milliseconds).

(** ** MQTT functions *)

Definition on_mqtt_connect (reason_code : Z) : M unit :=
  if reason_code =? 0 then
    logger Info (MsgConnected (Config.mqtt_host cfg) (Config.mqtt_port cfg)) ;;
    bus (Subscribe (Config.topic_set cfg) (Config.mqtt_qos cfg)) ;;
    bus (Subscribe (Config.topic_get cfg) (Config.mqtt_qos cfg)) ;;
    logger Info (MsgSubscribed (Config.topic_set cfg) (Config.topic_get cfg)) ;;
    bus (Publish (Config.topic_availability cfg) "online" (Config.mqtt_qos cfg) true)
  else
    logger Error (MsgConnectFailed reason_code).

(** [s.replace(':', '')] *)
Fixpoint remove_colons (s : string) : string :=
  match s with
  | EmptyString => EmptyString
  | String c s' =>
      if (c =? ":")%char then remove_colons s' else String c (remove_colons s')
  end.

(** Truth value of an [Optional[str]]. *)
Definition str_truthy (o : option string) : bool :=
  match o with
  | Some s => negb (s =? "")%string
  | None => false
  end.

Definition setup_mqtt : M Client :=
  id <- lift (match Config.appletv_id cfg with
              | Some s => inr (remove_colons s)
              | None => inl (Exn "AttributeError" "'NoneType' object has no attribute 'replace'")
              end) ;;
  bus (NewClient ("appletv2mqtt_" ++ id)%string) ;;
  (if (str_truthy (Config.mqtt_user cfg) && str_truthy (Config.mqtt_password cfg))%bool
   then bus (UsernamePwSet (Config.mqtt_user cfg) (Config.mqtt_password cfg))
   else ret tt) ;;
  bus (WillSet (Config.topic_availability cfg) "offline" (Config.mqtt_qos cfg) true) ;;
  ret PahoClient.

(** [mqtt_client and mqtt_client.is_connected()] *)
Definition client_connected : M bool :=
  match mqtt_client w with
  | None => ret false
  | Some _ => ask (env_is_connected w)
  end.

Definition mqtt_publish (topic payload : string) (retain : bool) : M unit :=
  try_except
    (connected <- client_connected ;;
     if connected then
       bus (Publish topic payload (Config.mqtt_qos cfg) retain) ;;
       logger Debug (MsgPublished topic (substring 0 100 payload))
     else
       logger Warning MsgNotConnected)
    (fun e => logger Error (MsgPublishError e)).

(** ** Apple TV functions *)

Definition default_state : dict :=
  [ ("media_type", JNull); ("device_state", JNull); ("title", JNull);
    ("artist", JNull); ("album", JNull); ("genre", JNull);
    ("position", JNull); ("total_time", JNull); ("repeat", JNull);
    ("shuffle", JNull); ("app", JNull); ("app_id", JNull);
    ("power_state", JNull) ].

(** [str(x).split('.')[-1]] of an enum member. *)
Definition enum_name (x : PyEnum) : json := JStr (last_segment (enum_str x)).

(** [str(x).split('.')[-1] if x else None] *)
Definition enum_field (x : option PyEnum) : json :=
  match x with
  | Some e => if enum_truthy e then enum_name e else JNull
  | None => JNull
  end.

(** Lines 297-306: the fields taken from the [Playing] object. *)
Definition set_playing_fields (p : Playing) (state : dict) : dict :=
  dict_set "shuffle" (enum_field (shuffle p))
  (dict_set "repeat" (enum_field (repeat p))
  (dict_set "total_time" (total_time p)
  (dict_set "position" (position p)
  (dict_set "genre" (genre p)
  (dict_set "album" (album p)
  (dict_set "artist" (artist p)
  (dict_set "title" (title p)
  (dict_set "device_state" (enum_field (device_state p))
  (dict_set "media_type" (enum_field (media_type p)) state))))))))).

(** Lines 311-312 and 314-315: the two fields of the current app. *)
Definition set_app_fields (app : option App) (state : dict) : dict :=
  match app with
  | Some a =>
      dict_set "app_id" (app_identifier a) (dict_set "app" (app_name a) state)
  | None => dict_set "app_id" JNull (dict_set "app" JNull state)
  end.

(** The [except] clause of [get_state] (lines 323-325) followed by the
    [return state] of line 327; [state] is the local dict as assigned so
    far when the exception arrives. *)
Definition get_state_failed (state : dict) (e : exn) : M dict :=
  logger Error (MsgStateError e) ;;
  logger Debug MsgTraceback ;;
  ret state.

(** The body between the two places that can raise into the outer
    [except] is pure, so the clause is written once for each of them, with
    the value [state] has there. *)
Definition get_state : M dict :=
  let state := default_state in
  match atv w with
  | None => ret state
  | Some d =>
      try_except
        (playing <- dev_read MetadataPlaying (env_playing w) ;;
         let state := set_playing_fields playing state in
         state <- try_except
                    (app <- dev_read MetadataApp (env_app w) ;;
                     ret (set_app_fields app state))
                    (fun _ => ret (set_app_fields None state)) ;;
         try_except
           (state <- (if has_power d then
                        ps <- dev_read PowerPowerState (env_power_state w) ;;
                        ret (dict_set "power_state" (enum_name ps) state)
                      else ret state) ;;
            logger Debug (MsgState state) ;;
            ret state)
           (get_state_failed state))
        (get_state_failed state)
  end.

(** [{'name': app.name, 'id': app.identifier}] *)
Definition app_entry (a : App) : json :=
  JObj [("name", app_name a); ("id", app_identifier a)].

Definition get_apps : M (list json) :=
  let apps := [] in
  match atv w with
  | None => ret apps
  | Some d =>
      if negb (has_apps d) then ret apps
      else
        try_except
          (app_list <- dev_read AppsAppList (env_app_list w) ;;
           let apps := map app_entry app_list in
           logger Debug (MsgApps (length apps)) ;;
           ret apps)
          (fun e =>
             logger Error (MsgAppsError e) ;;
             logger Debug MsgTraceback ;;
             ret apps)
  end.

(** How the dispatch on [action] leaves the [try] block: by falling through
    to [logger.info], or by the [return] of the last branch. *)
Inductive Flow : Type := FallThrough | Returned.

(** The pause of a [multi] command after each step: 0.3 seconds. *)
Definition multi_pause : Z := 300.

(** [execute_command] calls itself for the steps of a [multi] command;
    [fuel] bounds the depth of these calls.  Reading [atv.remote_control]
    (line 357) or testing [hasattr(atv, 'power') and atv.power] looks at
    the session object only: no call is made and no event recorded. *)
Fixpoint execute_command_fuel (fuel : nat) (action : json) (kwargs : dict) : M unit :=
  match fuel with
  | O => out_of_fuel
  | S fuel' =>
      match atv w with
      | None => logger Warning MsgNoDevice
      | Some d =>
          try_except
            (flow <-
               (if str_eq action "up" then dev RcUp ;; ret FallThrough
                else if str_eq action "down" then dev RcDown ;; ret FallThrough
                else if str_eq action "left" then dev RcLeft ;; ret FallThrough
                else if str_eq action "right" then dev RcRight ;; ret FallThrough
                else if str_eq action "select" then dev RcSelect ;; ret FallThrough
                else if str_eq action "menu" then dev RcMenu ;; ret FallThrough
                else if str_eq action "home" then dev RcHome ;; ret FallThrough
                else if str_eq action "play" then dev RcPlay ;; ret FallThrough
                else if str_eq action "pause" then dev RcPause ;; ret FallThrough
                else if str_eq action "play_pause" then dev RcPlayPause ;; ret FallThrough
                else if str_eq action "stop" then dev RcStop ;; ret FallThrough
                else if str_eq action "next" then dev RcNext ;; ret FallThrough
                else if str_eq action "previous" then dev RcPrevious ;; ret FallThrough
                else if str_eq action "turn_on" then
                  (if has_power d then dev PowerTurnOn else ret tt) ;; ret FallThrough
                else if str_eq action "turn_off" then
                  (if has_power d then dev PowerTurnOff else ret tt) ;; ret FallThrough
                else if str_eq action "wakeup" then
                  (if has_power d then dev PowerTurnOn else ret tt) ;; ret FallThrough
                else if str_eq action "suspend" then
                  (if has_power d then dev PowerTurnOff else ret tt) ;; ret FallThrough
                else if str_eq action "launch_app" then
                  let app_id := dict_get "app_id" JNull kwargs in
                  (if (truthy app_id && has_apps d)%bool
                   then dev (AppsLaunchApp app_id) else ret tt) ;;
                  ret FallThrough
                else if str_eq action "play_url" then
                  let url := dict_get "url" JNull kwargs in
                  (if (truthy url && has_stream d)%bool
                   then dev (StreamPlayUrl url) else ret tt) ;;
                  ret FallThrough
                else if str_eq action "multi" then
                  let commands := dict_get "commands" (JArr []) kwargs in
                  cmds <- lift (py_iter commands) ;;
                  for_each cmds (fun cmd =>
                    execute_command_fuel fuel' cmd [] ;;
                    sleep multi_pause) ;;
                  ret FallThrough
                else
                  logger Warning (MsgUnknownAction action) ;;
                  ret Returned) ;;
             match flow with
             | FallThrough => logger Info (MsgExecuted action)
             | Returned => ret tt
             end)
            (fun e =>
               logger Error (MsgCommandError action e) ;;
               logger Debug MsgTraceback)
      end
  end.

(** A step of a [multi] command is called without keyword arguments, so
    its own [commands] is the empty default and the calls nest twice at
    most. *)
Definition execute_command (action : json) (kwargs : dict) : M unit :=
  execute_command_fuel 2 action kwargs.

(** ** Tasks *)

(** [while not shutdown_event.is_set(): body], for [fuel] rounds at most. *)
Fixpoint while_running (fuel : nat) (body : M unit) : M unit :=
  match fuel with
  | O => out_of_fuel
  | S fuel' =>
      stop <- ask (env_shutdown_is_set w) ;;
      if stop then ret tt else body ;; while_running fuel' body
  end.

Definition state_update_round : M unit :=
  try_except
    (state <- get_state ;;
     mqtt_publish (Config.topic_state cfg) (json_dumps w (JObj state)) false)
    (fun e =>
       logger Error (MsgStateTaskError e) ;;
       logger Debug MsgTraceback) ;;
  sleep (1000 * Config.state_update_interval cfg).

Definition task_state_update (fuel : nat) : M unit :=
  logger Info (MsgStateTaskStarted (Config.state_update_interval cfg)) ;;
  while_running fuel state_update_round.

Definition apps_update_round : M unit :=
  try_except
    (apps <- get_apps ;;
     mqtt_publish (Config.topic_apps cfg) (json_dumps w (JArr apps)) true)
    (fun e =>
       logger Error (MsgAppsTaskError e) ;;
       logger Debug MsgTraceback) ;;
  sleep (1000 * Config.apps_update_interval cfg).

Definition task_apps_update (fuel : nat) : M unit :=
  logger Info (MsgAppsTaskStarted (Config.apps_update_interval cfg)) ;;
  while_running fuel apps_update_round.

(** [data.pop('action', None)]: only a dict has this method with two
    arguments. *)
Definition py_pop (k : string) (default : json) (data : json) : exn + json * dict :=
  match data with
  | JObj d => inr (dict_pop k default d)
  | JArr _ => inl (Exn "TypeError" "pop expected at most 1 argument, got 2")
  | _ => inl (Exn "AttributeError" "object has no attribute 'pop'")
  end.

(** [data.get('type', 'all')] *)
Definition py_get (k : string) (default : json) (data : json) : exn + json :=
  match data with
  | JObj d => inr (dict_get k default d)
  | _ => inl (Exn "AttributeError" "object has no attribute 'get'")
  end.

(** [except json.JSONDecodeError] *)
Definition is_decode_error (e : exn) : bool :=
  match e with
  | Exn cls _ => (cls =? "JSONDecodeError")%string
  end.

(** Lines 479-506: what the dispatcher does with one dequeued message. *)
Definition dispatch (cmd : InboundMessage) : M unit :=
  let topic := msg_topic cmd in
  let payload := msg_payload cmd in
  match json_loads w payload with
  | inl e =>
      if is_decode_error e then logger Warning (MsgInvalidJson payload)
      else raise e
  | inr data =>
      if (topic =? Config.topic_set cfg)%string then
        popped <- lift (py_pop "action" JNull data) ;;
        let (action, data) := popped : json * dict in
        if truthy action then execute_command action data else ret tt
      else if (topic =? Config.topic_get cfg)%string then
        get_type <- lift (py_get "type" (JStr "all") data) ;;
        (if str_in get_type ["state"; "all"] then
           state <- get_state ;;
           mqtt_publish (Config.topic_state cfg) (json_dumps w (JObj state)) false
         else ret tt) ;;
        (if str_in get_type ["apps"; "all"] then
           apps <- get_apps ;;
           mqtt_publish (Config.topic_apps cfg) (json_dumps w (JArr apps)) true
         else ret tt) ;;
        logger Info (MsgForcedUpdate get_type)
      else ret tt
  end.

(** One round of the loop of [task_command_handler]: wait one second for a
    message, and dispatch it if one came. *)
Definition command_round : M unit :=
  try_except
    (r <- ask (env_queue_get w) ;;
     emit (EQueueGet r) ;;
     match r with
     | None => ret tt
     | Some cmd => dispatch cmd
     end)
    (fun e =>
       logger Error (MsgHandlerError e) ;;
       logger Debug MsgTraceback).

Definition task_command_handler (fuel : nat) : M unit :=
  logger Info MsgHandlerStarted ;;
  while_running fuel command_round.

(** ** Main *)

(** Lines 554-559 of [main]: the device could not be connected. *)
Definition main_device_failed : M Z :=
  logger Error MsgDeviceConnectFailed ;;
  bus (Publish (Config.topic_availability cfg) "offline" (Config.mqtt_qos cfg) true) ;;
  bus LoopStop ;;
  bus Disconnect ;;
  ret 1.

(** Lines 573-596 of [main]: what follows [await shutdown_event.wait()]. *)
Definition main_shutdown : M Z :=
  logger Info MsgShuttingDown ;;
  for_each [StateTask; AppsTask; CommandTask] (fun t => emit (ETaskCancel t)) ;;
  emit EGather ;;
  mqtt_publish (Config.topic_availability cfg) "offline" true ;;
  match atv w with
  | Some _ => dev AtvClose ;; logger Info MsgDeviceClosed
  | None => ret tt
  end ;;
  bus LoopStop ;;
  bus Disconnect ;;
  logger Info MsgBusDisconnected ;;
  logger Info MsgShutdownComplete ;;
  ret 0.

(** ** The bridge as a whole *)

(** What runs in the process once the configuration is loaded. *)
Inductive Activity : Type :=
| ActSetupMqtt
| ActOnConnect (reason_code : Z)
| ActStateTask (fuel : nat)
| ActAppsTask (fuel : nat)
| ActCommandTask (fuel : nat)
| ActDeviceFailed
| ActShutdown.

Definition perform (a : Activity) : M unit :=
  match a with
  | ActSetupMqtt => setup_mqtt ;; ret tt
  | ActOnConnect reason_code => on_mqtt_connect reason_code
  | ActStateTask fuel => task_state_update fuel
  | ActAppsTask fuel => task_apps_update fuel
  | ActCommandTask fuel => task_command_handler fuel
  | ActDeviceFailed => main_device_failed ;; ret tt
  | ActShutdown => main_shutdown ;; ret tt
  end.

(** The histories of the bridge: any activities, one after the other.
    The tasks of the program interleave at their awaits; a property of
    each single event, as the retain flag of a publish is, does not depend
    on how they do. *)
Inductive reachable : list Event -> Prop :=
| reach_start : reachable []
| reach_step (h : list Event) (a : Activity) :
    reachable h -> reachable (h ++ emitted (perform a) h).

End Bridge.

(* ===================================================================== *)
(** * The vocabulary of the specification *)
(* ===================================================================== *)

(** The fixed catalogue of action names: navigation, media, power, app
    launch, URL playback and the composite action. *)
Definition catalogue : list string :=
  [ "up"; "down"; "left"; "right"; "select"; "menu"; "home";
    "play"; "pause"; "play_pause"; "stop"; "next"; "previous";
    "turn_on"; "turn_off"; "wakeup"; "suspend";
    "launch_app"; "play_url"; "multi" ].

(** The remote-control call behind a navigation or media action. *)
Definition rc_call (action : string) : option DevCall :=
  if (action =? "up")%string then Some RcUp
  else if (action =? "down")%string then Some RcDown
  else if (action =? "left")%string then Some RcLeft
  else if (action =? "right")%string then Some RcRight
  else if (action =? "select")%string then Some RcSelect
  else if (action =? "menu")%string then Some RcMenu
  else if (action =? "home")%string then Some RcHome
  else if (action =? "play")%string then Some RcPlay
  else if (action =? "pause")%string then Some RcPause
  else if (action =? "play_pause")%string then Some RcPlayPause
  else if (action =? "stop")%string then Some RcStop
  else if (action =? "next")%string then Some RcNext
  else if (action =? "previous")%string then Some RcPrevious
  else None.

(** The power call behind a power action: "wakeup" is "turn_on" and
    "suspend" is "turn_off". *)
Definition power_call (action : string) : option DevCall :=
  if (action =? "turn_on")%string then Some PowerTurnOn
  else if (action =? "turn_off")%string then Some PowerTurnOff
  else if (action =? "wakeup")%string then Some PowerTurnOn
  else if (action =? "suspend")%string then Some PowerTurnOff
  else None.

(** The device call of a step that comes without parameters: the call of
    a navigation or media action, the call of a power action when the
    device has the power interface, none otherwise. *)
Definition step_call (d : Device) (action : json) : option DevCall :=
  match action with
  | JStr name =>
      match rc_call name with
      | Some call => Some call
      | None => if has_power d then power_call name else None
      end
  | _ => None
  end.

(** What such a step adds to the history: its device call, if it has one,
    and one log entry: executed, or the error the call raised, or unknown
    action. *)
Definition step_events (w : World) (d : Device) (action : json) (h : list Event) : list Event :=
  match step_call d action with
  | Some call =>
      EDev call ::
        match env_device_raises w h call with
        | None => [ELog Info (MsgExecuted action)]
        | Some e => [ELog Error (MsgCommandError action e); ELog Debug MsgTraceback]
        end
  | None =>
      if str_in action catalogue then [ELog Info (MsgExecuted action)]
      else [ELog Warning (MsgUnknownAction action)]
  end.

(** The body of the loop of a [multi] command, inside [execute_command]. *)
Definition multi_step (w : World) (cmd : json) : M unit :=
  execute_command_fuel w 1 cmd [] ;; sleep multi_pause.

(** The steps of a [multi] command as the specification words them: each
    step is one call of the executor with the action name alone, followed
    by the pause, and the next step starts from the history the previous
    one left. *)
Fixpoint multi_steps (w : World) (cs : list json) (h : list Event) : list Event :=
  match cs with
  | [] => []
  | c :: cs' =>
      let t := emitted (execute_command w c []) h ++ [ESleep multi_pause] in
      t ++ multi_steps w cs' (h ++ t)
  end.

(** The two artifacts a get request can ask for. *)
Inductive Artifact : Type := StateArtifact | AppsArtifact.

(** "state" or "all" asks for the state, "apps" or "all" for the apps, any
    other value for nothing. *)
Definition requested (get_type : json) : list Artifact :=
  (if str_in get_type ["state"; "all"] then [StateArtifact] else []) ++
  (if str_in get_type ["apps"; "all"] then [AppsArtifact] else []).

Definition artifact_topic (c : Config.t) (a : Artifact) : string :=
  match a with
  | StateArtifact => Config.topic_state c
  | AppsArtifact => Config.topic_apps c
  end.

(** The state is published non-retained, the apps list retained. *)
Definition artifact_retain (a : Artifact) : bool :=
  match a with
  | StateArtifact => false
  | AppsArtifact => true
  end.

Definition fetch (w : World) (a : Artifact) : M string :=
  match a with
  | StateArtifact => state <- get_state w ;; ret (json_dumps w (JObj state))
  | AppsArtifact => apps <- get_apps w ;; ret (json_dumps w (JArr apps))
  end.

Definition fetch_and_publish (w : World) (a : Artifact) : M unit :=
  payload <- fetch w a ;;
  mqtt_publish w (artifact_topic (config w) a) payload (artifact_retain a).

(** The get request as the specification words it. *)
Definition spec_get_request (w : World) (get_type : json) : M unit :=
  for_each (requested get_type) (fetch_and_publish w) ;;
  logger Info (MsgForcedUpdate get_type).

(** The publishes found in a history: topic, payload and retain flag. *)
Fixpoint publishes (t : list Event) : list (string * string * bool) :=
  match t with
  | [] => []
  | EBus (Publish topic payload _ retain) :: t' => (topic, payload, retain) :: publishes t'
  | _ :: t' => publishes t'
  end.

(** Whether a publish would go out: [mqtt_client and
    mqtt_client.is_connected()] at history [h]. *)
Definition bus_connected (w : World) (h : list Event) : bool :=
  match mqtt_client w with
  | None => false
  | Some _ => env_is_connected w h
  end.

Definition is_null (v : json) : bool :=
  match v with
  | JNull => true
  | _ => false
  end.

Definition is_dev_call (e : Event) : bool :=
  match e with
  | EDev _ => true
  | _ => false
  end.

Definition is_warning (e : Event) : bool :=
  match e with
  | ELog Warning _ => true
  | _ => false
  end.

(** The retain flag each publish must carry, by topic. *)
Definition retain_rule (w : World) (e : Event) : Prop :=
  match e with
  | EBus (Publish topic payload _ retain) =>
      (topic = Config.topic_availability (config w) /\
       (payload = "online" \/ payload = "offline") /\ retain = true)
      \/ (topic = Config.topic_apps (config w) /\
          (exists apps, payload = json_dumps w (JArr apps)) /\ retain = true)
      \/ (topic = Config.topic_state (config w) /\
          (exists state, payload = json_dumps w (JObj state)) /\ retain = false)
  | EBus (WillSet topic payload _ retain) =>
      topic = Config.topic_availability (config w) /\ payload = "offline" /\ retain = true
  | _ => True
  end.

(** The shutdown of [main], in the order of the specification: the tasks
    are cancelled and awaited, then comes the offline publish, then the
    device session is closed, then the bus client is stopped and
    disconnected. *)
Definition shutdown_prefix : list Event :=
  [ ELog Info MsgShuttingDown;
    ETaskCancel StateTask; ETaskCancel AppsTask; ETaskCancel CommandTask;
    EGather ].

Definition shutdown_after_close : list Event :=
  [ ELog Info MsgDeviceClosed;
    EBus LoopStop; EBus Disconnect;
    ELog Info MsgBusDisconnected; ELog Info MsgShutdownComplete ].

(** The keys the specification calls required: all but the log level. *)
Definition spec_required_keys : list string :=
  [ "MQTT_HOST"; "MQTT_PORT"; "MQTT_USER"; "MQTT_PASSWORD"; "MQTT_QOS";
    "MQTT_BASE_TOPIC";
    "APPLETV_ID"; "APPLETV_CREDENTIALS"; "APPLETV_ADDRESS";
    "STATE_UPDATE_INTERVAL"; "APPS_UPDATE_INTERVAL";
    "MQTT_RECONNECT_DELAY"; "APPLETV_RECONNECT_DELAY" ].

Definition is_set (env : Env) (var : string) : bool :=
  match env var with
  | Some _ => true
  | None => false
  end.

(* ===================================================================== *)
(** * Properties of computations *)
(* ===================================================================== *)

(** [halts m]: [m] ends with a value or with an exception at every
    history; [returns m]: it ends with a value. *)
Definition halts {A : Type} (m : M A) : Prop :=
  forall h, outcome m h <> OutOfFuel.

Definition returns {A : Type} (m : M A) : Prop :=
  forall h, exists a, outcome m h = Ret a.

(** [emits P m]: every event [m] adds, at any history, satisfies [P]. *)
Definition emits {A : Type} (P : Event -> Prop) (m : M A) : Prop :=
  forall h, Forall P (emitted m h).

(** An event that is no bus call. *)
Definition off_bus (e : Event) : Prop :=
  match e with
  | EBus _ => False
  | _ => True
  end.

(** The publishes of a get request: each goes to the topic of a requested
    artifact and carries the retain flag of that artifact. *)
Definition publish_of (w : World) (arts : list Artifact) (e : Event) : Prop :=
  match e with
  | EBus (Publish topic _ qos retain) =>
      exists a, In a arts
                /\ topic = artifact_topic (config w) a
                /\ qos = Config.mqtt_qos (config w)
                /\ retain = artifact_retain a
  | EBus _ => False
  | _ => True
  end.

(* ===================================================================== *)
(** * A concrete bridge *)
(* ===================================================================== *)

Module Demo.

(** An environment given by its assignments. *)
Fixpoint env_of (l : list (string * string)) : Env :=
  fun var =>
    match l with
    | [] => None
    | (k, v) :: l' => if (k =? var)%string then Some v else env_of l' var
    end.

Definition env_without_log_level : Env :=
  env_of
    [ ("MQTT_HOST", "broker.lan"); ("MQTT_PORT", "1883"); ("MQTT_USER", "bridge");
      ("MQTT_PASSWORD", "secret"); ("MQTT_QOS", "1"); ("MQTT_BASE_TOPIC", "appletv");
      ("APPLETV_ID", "AA:BB:CC:DD:EE:FF"); ("APPLETV_CREDENTIALS", "companion:0123");
      ("APPLETV_ADDRESS", "192.168.1.20");
      ("STATE_UPDATE_INTERVAL", "5"); ("APPS_UPDATE_INTERVAL", "300");
      ("MQTT_RECONNECT_DELAY", "5"); ("APPLETV_RECONNECT_DELAY", "10") ].

Definition env_full : Env :=
  fun var => if (var =? "LOG_LEVEL")%string then Some "debug" else env_without_log_level var.

(** A decimal reader for the numbers of the environments above. *)
Definition digit (c : ascii) : option Z :=
  let n := nat_of_ascii c in
  if (Nat.leb 48 n && Nat.leb n 57)%bool then Some (Z.of_nat (n - 48)) else None.

Fixpoint digits (acc : Z) (s : string) : option Z :=
  match s with
  | EmptyString => Some acc
  | String c s' =>
      match digit c with
      | Some d => digits (10 * acc + d) s'
      | None => None
      end
  end.

Definition py_int (s : string) : option Z :=
  match s with
  | EmptyString => None
  | _ => digits 0 s
  end.

Definition cfg : Config.t :=
  {| Config.mqtt_host := Some "broker.lan";
     Config.mqtt_port := 1883;
     Config.mqtt_user := Some "bridge";
     Config.mqtt_password := Some "secret";
     Config.mqtt_qos := 1;
     Config.mqtt_base_topic := Some "appletv";
     Config.appletv_id := Some "AA:BB:CC:DD:EE:FF";
     Config.appletv_credentials := Some "companion:0123";
     Config.appletv_address := Some "192.168.1.20";
     Config.state_update_interval := 5;
     Config.apps_update_interval := 300;
     Config.mqtt_reconnect_delay := 5;
     Config.appletv_reconnect_delay := 10;
     Config.log_level := "DEBUG" |}.

Definition device : Device := {| has_power := true; has_apps := true; has_stream := true |}.

Definition now_playing : Playing :=
  {| media_type := Some {| enum_str := "MediaType.Video"; enum_truthy := true |};
     device_state := Some {| enum_str := "DeviceState.Playing"; enum_truthy := true |};
     title := JStr "Big Buck Bunny";
     artist := JNull;
     album := JNull;
     genre := JNull;
     position := JInt 12;
     total_time := JInt 596;
     repeat := Some {| enum_str := "RepeatState.Off"; enum_truthy := true |};
     shuffle := Some {| enum_str := "ShuffleState.Off"; enum_truthy := true |} |}.

Definition tv_app : App := {| app_name := JStr "TV"; app_identifier := JStr "com.apple.TVWatchList" |}.

Definition quote (s : string) : string :=
  String "034"%char (s ++ String "034"%char EmptyString)%string.

Definition decimal (n : Z) : string :=
  match n with
  | Z0 => "0"
  | Zpos p => DecimalString.NilEmpty.string_of_uint (Pos.to_uint p)
  | Zneg p => String "-"%char (DecimalString.NilEmpty.string_of_uint (Pos.to_uint p))
  end.

(** A printer for the values the demo publishes (strings without escapes,
    floats not printed). *)
Fixpoint dumps (v : json) : string :=
  match v with
  | JNull => "null"
  | JBool true => "true"
  | JBool false => "false"
  | JInt n => decimal n
  | JFloat _ => "0.0"
  | JStr s => quote s
  | JArr l => ("[" ++ String.concat ", " (map dumps l) ++ "]")%string
  | JObj d =>
      ("{" ++ String.concat ", "
                (map (fun kv => let (k, x) := kv : string * json in
                                (quote k ++ ": " ++ dumps x)%string) d)
           ++ "}")%string
  end.

(** A decoder that knows the empty object. *)
Definition loads (s : string) : exn + json :=
  if (s =? "{}")%string then inr (JObj [])
  else inl (Exn "JSONDecodeError" "Expecting value").

(** A quiet world: both endpoints answer, nothing raises, the queue is
    empty and nobody asks for shutdown. *)
Definition world : World :=
  {| config := cfg;
     atv := Some device;
     mqtt_client := Some PahoClient;
     env_playing := fun _ => inr now_playing;
     env_app := fun _ => inr (Some tv_app);
     env_power_state := fun _ => inr {| enum_str := "PowerState.On"; enum_truthy := true |};
     env_app_list := fun _ => inr [tv_app];
     env_device_raises := fun _ _ => None;
     env_is_connected := fun _ => true;
     env_bus_raises := fun _ _ => None;
     env_queue_get := fun _ => None;
     env_shutdown_is_set := fun _ => false;
     json_loads := loads;
     json_dumps := dumps |}.

(** The same with the broker connection lost. *)
Definition world_offline : World :=
  {| config := cfg;
     atv := Some device;
     mqtt_client := Some PahoClient;
     env_playing := env_playing world;
     env_app := env_app world;
     env_power_state := env_power_state world;
     env_app_list := env_app_list world;
     env_device_raises := fun _ _ => None;
     env_is_connected := fun _ => false;
     env_bus_raises := fun _ _ => None;
     env_queue_get := fun _ => None;
     env_shutdown_is_set := fun _ => false;
     json_loads := loads;
     json_dumps := dumps |}.

(** The same with a device whose every call raises. *)
Definition world_failing : World :=
  {| config := cfg;
     atv := Some device;
     mqtt_client := Some PahoClient;
     env_playing := fun _ => inl (Exn "ConnectionLostError" "device went away");
     env_app := fun _ => inl (Exn "ConnectionLostError" "device went away");
     env_power_state := fun _ => inl (Exn "ConnectionLostError" "device went away");
     env_app_list := fun _ => inl (Exn "ConnectionLostError" "device went away");
     env_device_raises := fun _ _ => Some (Exn "ConnectionLostError" "device went away");
     env_is_connected := fun _ => true;
     env_bus_raises := fun _ _ => None;
     env_queue_get := fun _ => None;
     env_shutdown_is_set := fun _ => false;
     json_loads := loads;
     json_dumps := dumps |}.

(** The same without a device session. *)
Definition world_no_device : World :=
  {| config := cfg;
     atv := None;
     mqtt_client := Some PahoClient;
     env_playing := env_playing world;
     env_app := env_app world;
     env_power_state := env_power_state world;
     env_app_list := env_app_list world;
     env_device_raises := fun _ _ => None;
     env_is_connected := fun _ => true;
     env_bus_raises := fun _ _ => None;
     env_queue_get := fun _ => None;
     env_shutdown_is_set := fun _ => false;
     json_loads := loads;
     json_dumps := dumps |}.

End Demo.

(* ===================================================================== *)
(** * Further vocabulary *)
(* ===================================================================== *)

(** Whether a string contains a dot. *)
Fixpoint has_dot (s : string) : bool :=
  match s with
  | EmptyString => false
  | String c s' => if (c =? ".")%char then true else has_dot s'
  end.

(** Whether a string contains a colon. *)
Fixpoint has_colon (s : string) : bool :=
  match s with
  | EmptyString => false
  | String c s' => if (c =? ":")%char then true else has_colon s'
  end.

(** The keys [_load] converts with [int()], in the order it reads them. *)
Definition numeric_keys : list string :=
  [ "MQTT_PORT"; "MQTT_QOS"; "STATE_UPDATE_INTERVAL"; "APPS_UPDATE_INTERVAL";
    "MQTT_RECONNECT_DELAY"; "APPLETV_RECONNECT_DELAY" ].

(** Whether [int()] accepts the value of a key. *)
Definition parses (py_int : string -> option Z) (env : Env) (var : string) : bool :=
  match env var with
  | Some s => match py_int s with Some _ => true | None => false end
  | None => false
  end.

(** The device calls the bridge may make: none without a session, and a
    call into an optional interface only when the device has it and, for
    an app launch or a URL, only with a parameter that counts as true. *)
Definition dev_rule (w : World) (c : DevCall) : Prop :=
  match atv w with
  | None => False
  | Some d =>
      match c with
      | AppsLaunchApp app_id => truthy app_id = true /\ has_apps d = true
      | StreamPlayUrl url => truthy url = true /\ has_stream d = true
      | PowerTurnOn | PowerTurnOff | PowerPowerState => has_power d = true
      | AppsAppList => has_apps d = true
      | _ => True
      end
  end.

(** The bus calls the bridge may make. *)
Definition bus_rule (w : World) (c : BusCall) : Prop :=
  let cfg := config w in
  match c with
  | NewClient client_id =>
      exists s, Config.appletv_id cfg = Some s
                /\ client_id = ("appletv2mqtt_" ++ remove_colons s)%string
  | UsernamePwSet user password =>
      user = Config.mqtt_user cfg /\ password = Config.mqtt_password cfg
      /\ str_truthy user = true /\ str_truthy password = true
  | WillSet topic payload qos retain =>
      topic = Config.topic_availability cfg /\ payload = "offline"
      /\ qos = Config.mqtt_qos cfg /\ retain = true
  | Subscribe topic qos =>
      (topic = Config.topic_set cfg \/ topic = Config.topic_get cfg)
      /\ qos = Config.mqtt_qos cfg
  | Publish topic payload qos retain =>
      qos = Config.mqtt_qos cfg
      /\ (topic = Config.topic_availability cfg
          \/ topic = Config.topic_apps cfg
          \/ topic = Config.topic_state cfg)
  | LoopStop | Disconnect => True
  end.

(** The pauses the bridge may take: the pause of a [multi] step and the
    two poll intervals. *)
Definition sleep_rule (w : World) (milliseconds : Z) : Prop :=
  milliseconds = multi_pause
  \/ milliseconds = 1000 * Config.state_update_interval (config w)
  \/ milliseconds = 1000 * Config.apps_update_interval (config w).

Definition bridge_rule (w : World) (e : Event) : Prop :=
  match e with
  | EDev c => dev_rule w c
  | EBus c => bus_rule w c
  | ESleep milliseconds => sleep_rule w milliseconds
  | _ => True
  end.

Definition is_bus_call (e : Event) : bool :=
  match e with
  | EBus _ => true
  | _ => false
  end.

Definition is_object (v : json) : bool :=
  match v with
  | JObj _ => true
  | _ => false
  end.

(* ===================================================================== *)
(** * Further concrete bridges *)
(* ===================================================================== *)

Module Cases.



(** A device whose power state cannot be read. *)
Definition world_power_failing : World :=
  {| config := Demo.cfg;
     atv := Some Demo.device;
     mqtt_client := Some PahoClient;
     env_playing := fun _ => inr Demo.now_playing;
     env_app := fun _ => inr (Some Demo.tv_app);
     env_power_state := fun _ => inl (Exn "ProtocolError" "no power state");
     env_app_list := env_app_list Demo.world;
     env_device_raises := fun _ _ => None;
     env_is_connected := fun _ => true;
     env_bus_raises := fun _ _ => None;
     env_queue_get := fun _ => None;
     env_shutdown_is_set := fun _ => false;
     json_loads := Demo.loads;
     json_dumps := Demo.dumps |}.

End Cases.

(** The periodic round, the request name and the poll interval of an
    artifact. *)
Definition artifact_round (w : World) (a : Artifact) : M unit :=
  match a with
  | StateArtifact => state_update_round w
  | AppsArtifact => apps_update_round w
  end.

Definition artifact_name (a : Artifact) : string :=
  match a with
  | StateArtifact => "state"
  | AppsArtifact => "apps"
  end.

Definition artifact_interval (c : Config.t) (a : Artifact) : Z :=
  match a with
  | StateArtifact => Config.state_update_interval c
  | AppsArtifact => Config.apps_update_interval c
  end.


Module Queue.

(** A bridge whose queue holds one message on the set topic that is no
    JSON. *)
Definition garbage : InboundMessage :=
  {| msg_topic := Config.topic_set Demo.cfg; msg_payload := "up" |}.

Definition world : World :=
  {| config := Demo.cfg;
     atv := Some Demo.device;
     mqtt_client := Some PahoClient;
     env_playing := env_playing Demo.world;
     env_app := env_app Demo.world;
     env_power_state := env_power_state Demo.world;
     env_app_list := env_app_list Demo.world;
     env_device_raises := fun _ _ => None;
     env_is_connected := fun _ => true;
     env_bus_raises := fun _ _ => None;
     env_queue_get := fun _ => Some garbage;
     env_shutdown_is_set := fun _ => false;
     json_loads := Demo.loads;
     json_dumps := Demo.dumps |}.

(** A bridge on which shutdown has been requested. *)
Definition world_stopping : World :=
  {| config := Demo.cfg;
     atv := Some Demo.device;
     mqtt_client := Some PahoClient;
     env_playing := env_playing Demo.world;
     env_app := env_app Demo.world;
     env_power_state := env_power_state Demo.world;
     env_app_list := env_app_list Demo.world;
     env_device_raises := fun _ _ => None;
     env_is_connected := fun _ => true;
     env_bus_raises := fun _ _ => None;
     env_queue_get := fun _ => None;
     env_shutdown_is_set := fun _ => true;
     json_loads := Demo.loads;
     json_dumps := Demo.dumps |}.

End Queue.

Module Asking.

(** A bridge whose decoder reads every payload as a request for the
    state. *)
Definition world : World :=
  {| config := Demo.cfg;
     atv := Some Demo.device;
     mqtt_client := Some PahoClient;
     env_playing := env_playing Demo.world;
     env_app := env_app Demo.world;
     env_power_state := env_power_state Demo.world;
     env_app_list := env_app_list Demo.world;
     env_device_raises := fun _ _ => None;
     env_is_connected := fun _ => true;
     env_bus_raises := fun _ _ => None;
     env_queue_get := fun _ => None;
     env_shutdown_is_set := fun _ => false;
     json_loads := fun _ => inr (JObj [("type", JStr "state")]);
     json_dumps := Demo.dumps |}.

End Asking.

(* ===================================================================== *)
(** * Connecting and receiving *)
(* ===================================================================== *)

(** [connect_mqtt], [connect_appletv] and [on_mqtt_message] run before the
    tasks or beside them and call other methods of the two clients; they
    have their own events and their own environment.  The monad is the
    one of the tasks, over these events. *)
Module Sup.

(** The protocol [connect_appletv] binds the credentials to: the member
    [Protocol[NAME]], or [Protocol.Companion] when [Protocol] has no
    attribute of that name. *)
Inductive ProtocolChoice : Type :=
| Member (name : string)
| CompanionDefault.

(** What [pyatv.scan] finds: a device configuration, known by its name. *)
Record Found : Type := { found_name : string }.

(** What [pyatv.connect] returns, with the [device_info] the log shows. *)
Record Session : Type := {
  session_device : Device;
  session_model : string;
  session_os : string;
  session_version : string
}.

(** A message as the paho thread hands it over: the topic and the payload
    bytes. *)
Record RawMessage : Type := { raw_topic : string; raw_payload : string }.

Inductive Msg : Type :=
| MsgConnecting (host : option string) (port : Z)
| MsgConnectError (e : exn)
| MsgRetrying (delay : Z)
| MsgDeviceConnecting (address : option string)
| MsgDeviceNotFound (identifier : option string)
| MsgDeviceRetrying (delay : Z)
| MsgDeviceConnected (model : string)
| MsgDeviceOs (os version : string)
| MsgDeviceError (e : exn)
| MsgTraceback
| MsgReceived (topic payload : string)
| MsgReceiveError (e : exn).

Inductive Ev : Type :=
| Log (lvl : Level) (msg : Msg)
| Connect (host : option string) (port keepalive : Z)
| LoopStart
| RunUntilComplete (seconds : Z)
| Scan (identifier : option string) (timeout : Z)
| Sleep (seconds : Z)
| SetCredentials (found : Found) (protocol : ProtocolChoice) (credentials : string)
| DeviceConnect (found : Found)
| Enqueue (cmd : InboundMessage).

(** The globals these functions read, and the environment. *)
Record World : Type := {
  config : Config.t;
  command_queue : bool;
  main_loop : bool;
  env_shutdown_is_set : list Ev -> bool;
  env_connect_raises : list Ev -> option exn;
  env_loop_start_raises : list Ev -> option exn;
  env_run_raises : list Ev -> option exn;
  env_scan : list Ev -> exn + list Found;
  env_set_credentials_raises : list Ev -> option exn;
  env_device_connect : list Ev -> exn + Session;
  env_enqueue_raises : list Ev -> option exn;
  protocol_hasattr : string -> bool;
  protocol_item_raises : string -> option exn;
  decode_utf8 : string -> exn + string
}.

Definition M (A : Type) : Type := list Ev -> list Ev * result A.

Definition ret {A : Type} (a : A) : M A := fun _ => ([], Ret a).

Definition bind {A B : Type} (m : M A) (k : A -> M B) : M B :=
  fun h =>
    match m h with
    | (t1, Ret a) => let (t2, r) := k a (h ++ t1) in (t1 ++ t2, r)
    | (t1, Raise e) => (t1, Raise e)
    | (t1, OutOfFuel) => (t1, OutOfFuel)
    end.

Definition emit (e : Ev) : M unit := fun _ => ([e], Ret tt).

Definition raise {A : Type} (e : exn) : M A := fun _ => ([], Raise e).

Definition out_of_fuel {A : Type} : M A := fun _ => ([], OutOfFuel).

Definition try_except {A : Type} (body : M A) (handler : exn -> M A) : M A :=
  fun h =>
    match body h with
    | (t1, Raise e) => let (t2, r) := handler e (h ++ t1) in (t1 ++ t2, r)
    | other => other
    end.

Definition lift {A : Type} (r : exn + A) : M A :=
  match r with
  | inl e => raise e
  | inr a => ret a
  end.

Definition ask {A : Type} (f : list Ev -> A) : M A := fun h => ([], Ret (f h)).

(** A call without result that may raise. *)
Definition call (e : Ev) (raises : list Ev -> option exn) : M unit :=
  fun h =>
    ([e],
     match raises h with
     | None => Ret tt
     | Some x => Raise x
     end).

(** A call with a result that may raise. *)
Definition call_for {A : Type} (e : Ev) (answer : list Ev -> exn + A) : M A :=
  fun h =>
    ([e],
     match answer h with
     | inr a => Ret a
     | inl x => Raise x
     end).

Declare Scope sup_scope.
Notation "x <- m ;; k" := (bind m (fun x => k))
  (at level 61, m at next level, right associativity) : sup_scope.
Notation "m ;; k" := (bind m (fun _ => k))
  (at level 61, right associativity) : sup_scope.
Local Open Scope sup_scope.

Definition emitted {A : Type} (m : M A) (h : list Ev) : list Ev := fst (m h).
Definition outcome {A : Type} (m : M A) (h : list Ev) : result A := snd (m h).

Section Functions.

Variable w : World.

Let cfg : Config.t := config w.

Definition logger (lvl : Level) (msg : Msg) : M unit := emit (Log lvl msg).

(** ** [on_mqtt_message] *)

Definition on_mqtt_message (msg : RawMessage) : M unit :=
  try_except
    (payload <- lift (decode_utf8 w (raw_payload msg)) ;;
     logger Debug (MsgReceived (raw_topic msg) payload) ;;
     if (command_queue w && main_loop w)%bool then
       call (Enqueue {| msg_topic := raw_topic msg; msg_payload := payload |})
         (env_enqueue_raises w)
     else ret tt)
    (fun e => logger Error (MsgReceiveError e)).

(** ** [connect_mqtt] *)

(** Lines 205-208: the wait after a failed attempt, one second at a time.
    [Some false] is the [return False] of line 207; [None] is the end of
    the [for] loop. *)
Fixpoint wait_ticks (ticks : nat) : M (option bool) :=
  match ticks with
  | O => ret None
  | S ticks' =>
      stop <- ask (env_shutdown_is_set w) ;;
      if stop then ret (Some false)
      else
        call (RunUntilComplete 1) (env_run_raises w) ;;
        wait_ticks ticks'
  end.

(** [fuel] bounds the rounds of the [while] loop.  The wait is part of
    the [except] clause, so what it raises leaves the function. *)
Fixpoint connect_mqtt (fuel : nat) : M bool :=
  match fuel with
  | O => out_of_fuel
  | S fuel' =>
      stop <- ask (env_shutdown_is_set w) ;;
      if stop then ret false
      else
        r <- try_except
               (logger Info (MsgConnecting (Config.mqtt_host cfg) (Config.mqtt_port cfg)) ;;
                call (Connect (Config.mqtt_host cfg) (Config.mqtt_port cfg) 60)
                  (env_connect_raises w) ;;
                call LoopStart (env_loop_start_raises w) ;;
                ret (Some true))
               (fun e =>
                  logger Error (MsgConnectError e) ;;
                  logger Info (MsgRetrying (Config.mqtt_reconnect_delay cfg)) ;;
                  wait_ticks (Z.to_nat (Config.mqtt_reconnect_delay cfg))) ;;
        match r with
        | Some b => ret b
        | None => connect_mqtt fuel'
        end
  end.

(** ** [connect_appletv] *)

(** [s.split(':', 1)] unpacked into two names: the text before the first
    colon and the text after it, or the [ValueError] of the unpacking
    when there is no colon. *)
Fixpoint split_once (s : string) : option (string * string) :=
  match s with
  | EmptyString => None
  | String c s' =>
      if (c =? ":")%char then Some (EmptyString, s')
      else
        match split_once s' with
        | Some (a, b) => Some (String c a, b)
        | None => None
        end
  end.

Definition unpack_credentials (o : option string) : exn + string * string :=
  match o with
  | None => inl (Exn "AttributeError" "'NoneType' object has no attribute 'split'")
  | Some s =>
      match split_once s with
      | Some parts => inr parts
      | None => inl (Exn "ValueError" "not enough values to unpack (expected 2, got 1)")
      end
  end.

(** [Protocol[NAME] if hasattr(Protocol, NAME) else Protocol.Companion] *)
Definition choose_protocol (name : string) : exn + ProtocolChoice :=
  if protocol_hasattr w name then
    match protocol_item_raises w name with
    | None => inr (Member name)
    | Some e => inl e
    end
  else inr CompanionDefault.

(** How one round of the loop ends: with the [return atv] of line 262 or
    by going round again. *)
Inductive Round : Type :=
| Connected (s : Session)
| Again.

Definition retry_pause : M Round :=
  logger Info (MsgDeviceRetrying (Config.appletv_reconnect_delay cfg)) ;;
  emit (Sleep (Config.appletv_reconnect_delay cfg)) ;;
  ret Again.

Definition connect_round : M Round :=
  try_except
    (logger Info (MsgDeviceConnecting (Config.appletv_address cfg)) ;;
     atvs <- call_for (Scan (Config.appletv_id cfg) 10) (env_scan w) ;;
     match atvs with
     | [] =>
         logger Warning (MsgDeviceNotFound (Config.appletv_id cfg)) ;;
         retry_pause
     | atv_config :: _ =>
         parts <- lift (unpack_credentials (Config.appletv_credentials cfg)) ;;
         let (protocol, credentials) := parts : string * string in
         protocol_enum <- lift (choose_protocol (upper protocol)) ;;
         call (SetCredentials atv_config protocol_enum credentials)
           (env_set_credentials_raises w) ;;
         atv <- call_for (DeviceConnect atv_config) (env_device_connect w) ;;
         logger Info (MsgDeviceConnected (session_model atv)) ;;
         logger Info (MsgDeviceOs (session_os atv) (session_version atv)) ;;
         ret (Connected atv)
     end)
    (fun e =>
       logger Error (MsgDeviceError e) ;;
       logger Debug MsgTraceback ;;
       retry_pause).

Fixpoint connect_appletv (fuel : nat) : M (option Session) :=
  match fuel with
  | O => out_of_fuel
  | S fuel' =>
      stop <- ask (env_shutdown_is_set w) ;;
      if stop then ret None
      else
        r <- connect_round ;;
        match r with
        | Connected atv => ret (Some atv)
        | Again => connect_appletv fuel'
        end
  end.

End Functions.

(** ** Counting *)

Definition is_connect (e : Ev) : bool :=
  match e with Connect _ _ _ => true | _ => false end.


Definition is_scan (e : Ev) : bool :=
  match e with Scan _ _ => true | _ => false end.

Definition is_sleep (e : Ev) : bool :=
  match e with Sleep _ => true | _ => false end.

Definition is_enqueue (e : Ev) : bool :=
  match e with Enqueue _ => true | _ => false end.

Definition is_device_setup (e : Ev) : bool :=
  match e with SetCredentials _ _ _ | DeviceConnect _ => true | _ => false end.

Definition count (p : Ev -> bool) (t : list Ev) : nat := length (filter p t).

(** ** Concrete environments *)

(** A broker that refuses the first two connections. *)
Definition stubborn : World :=
  {| config := Demo.cfg;
     command_queue := true;
     main_loop := true;
     env_shutdown_is_set := fun _ => false;
     env_connect_raises :=
       fun h => if Nat.ltb (count is_connect h) 2
                then Some (Exn "ConnectionRefusedError" "Connection refused")
                else None;
     env_loop_start_raises := fun _ => None;
     env_run_raises := fun _ => None;
     env_scan := fun _ => inr [{| found_name := "Living Room" |}];
     env_set_credentials_raises := fun _ => None;
     env_device_connect :=
       fun _ => inr {| session_device := Demo.device;
                       session_model := "Apple TV 4K";
                       session_os := "TvOS";
                       session_version := "17.4" |};
     env_enqueue_raises := fun _ => None;
     protocol_hasattr := fun name => (name =? "MRP")%string;
     protocol_item_raises := fun _ => None;
     decode_utf8 := fun s => inr s |}.

(** The same inside a running event loop, where [run_until_complete]
    raises. *)
Definition inside_loop : World :=
  {| config := Demo.cfg;
     command_queue := true;
     main_loop := true;
     env_shutdown_is_set := fun _ => false;
     env_connect_raises := env_connect_raises stubborn;
     env_loop_start_raises := fun _ => None;
     env_run_raises :=
       fun _ => Some (Exn "RuntimeError" "This event loop is already running");
     env_scan := env_scan stubborn;
     env_set_credentials_raises := fun _ => None;
     env_device_connect := env_device_connect stubborn;
     env_enqueue_raises := fun _ => None;
     protocol_hasattr := protocol_hasattr stubborn;
     protocol_item_raises := fun _ => None;
     decode_utf8 := fun s => inr s |}.

(** A configuration whose credentials have no colon. *)
Definition cfg_bad_credentials : Config.t :=
  {| Config.mqtt_host := Some "broker.lan";
     Config.mqtt_port := 1883;
     Config.mqtt_user := Some "bridge";
     Config.mqtt_password := Some "secret";
     Config.mqtt_qos := 1;
     Config.mqtt_base_topic := Some "appletv";
     Config.appletv_id := Some "AA:BB:CC:DD:EE:FF";
     Config.appletv_credentials := Some "0123456789abcdef";
     Config.appletv_address := Some "192.168.1.20";
     Config.state_update_interval := 5;
     Config.apps_update_interval := 300;
     Config.mqtt_reconnect_delay := 5;
     Config.appletv_reconnect_delay := 10;
     Config.log_level := "INFO" |}.

Definition misconfigured : World :=
  {| config := cfg_bad_credentials;
     command_queue := true;
     main_loop := true;
     env_shutdown_is_set := fun _ => false;
     env_connect_raises := fun _ => None;
     env_loop_start_raises := fun _ => None;
     env_run_raises := fun _ => None;
     env_scan := env_scan stubborn;
     env_set_credentials_raises := fun _ => None;
     env_device_connect := env_device_connect stubborn;
     env_enqueue_raises := fun _ => None;
     protocol_hasattr := protocol_hasattr stubborn;
     protocol_item_raises := fun _ => None;
     decode_utf8 := fun s => inr s |}.

End Sup.

(* ===================================================================== *)
(** * Theorems *)
(* ===================================================================== *)

(** ** Running computations *)

Section Running.

Context {A B : Type}.

Lemma bind_ret (m : M A) (k : A -> M B) (h t1 : list Event) (a : A) :
  m h = (t1, Ret a) ->
  bind m k h = (t1 ++ emitted (k a) (h ++ t1), outcome (k a) (h ++ t1)).
Proof.
  intros Hm. unfold bind, emitted, outcome. rewrite Hm.
  destruct (k a (h ++ t1)); reflexivity.
Qed.

Lemma bind_raise (m : M A) (k : A -> M B) (h t1 : list Event) (e : exn) :
  m h = (t1, Raise e) -> bind m k h = (t1, Raise e).
Proof. intros Hm. unfold bind. rewrite Hm. reflexivity. Qed.

Lemma try_ret (m : M A) (handler : exn -> M A) (h t1 : list Event) (a : A) :
  m h = (t1, Ret a) -> try_except m handler h = (t1, Ret a).
Proof. intros Hm. unfold try_except. rewrite Hm. reflexivity. Qed.

Lemma try_raise (m : M A) (handler : exn -> M A) (h t1 : list Event) (e : exn) :
  m h = (t1, Raise e) ->
  try_except m handler h
  = (t1 ++ emitted (handler e) (h ++ t1), outcome (handler e) (h ++ t1)).
Proof.
  intros Hm. unfold try_except, emitted, outcome. rewrite Hm.
  destruct (handler e (h ++ t1)); reflexivity.
Qed.

End Running.

Lemma run_eta {A : Type} (m : M A) (h : list Event) :
  m h = (emitted m h, outcome m h).
Proof. unfold emitted, outcome. destruct (m h); reflexivity. Qed.

(** ** Computations that end *)

Lemma returns_halts {A : Type} (m : M A) : returns m -> halts m.
Proof. intros Hr h. destruct (Hr h) as [a Ha]. rewrite Ha. discriminate. Qed.

Lemma returns_unit (m : M unit) (h : list Event) :
  returns m -> m h = (emitted m h, Ret tt).
Proof.
  intros Hr. destruct (Hr h) as [[] Ha]. rewrite (run_eta m h), Ha.
  unfold emitted. rewrite (run_eta m h). reflexivity.
Qed.

Lemma returns_ret {A : Type} (a : A) : returns (ret a).
Proof. intros h. exists a. reflexivity. Qed.

Lemma returns_emit (e : Event) : returns (emit e).
Proof. intros h. exists tt. reflexivity. Qed.

Lemma returns_logger (lvl : Level) (msg : LogMsg) : returns (logger lvl msg).
Proof. apply returns_emit. Qed.

Lemma returns_sleep (ms : Z) : returns (sleep ms).
Proof. apply returns_emit. Qed.

Lemma returns_ask {A : Type} (f : list Event -> A) : returns (ask f).
Proof. intros h. exists (f h). reflexivity. Qed.

Lemma halts_raise {A : Type} (e : exn) : halts (@raise A e).
Proof. intros h. discriminate. Qed.

Lemma halts_lift {A : Type} (r : exn + A) : halts (lift r).
Proof. intros h. destruct r; discriminate. Qed.

Lemma halts_bus (w : World) (c : BusCall) : halts (bus w c).
Proof.
  intros h. unfold outcome, bus. simpl.
  destruct (env_bus_raises w h c); discriminate.
Qed.

Lemma halts_dev (w : World) (c : DevCall) : halts (dev w c).
Proof.
  intros h. unfold outcome, dev. simpl.
  destruct (env_device_raises w h c); discriminate.
Qed.

Lemma halts_dev_read {A : Type} (c : DevCall) (answer : list Event -> exn + A) :
  halts (dev_read c answer).
Proof.
  intros h. unfold outcome, dev_read. simpl. destruct (answer h); discriminate.
Qed.

Lemma halts_bind {A B : Type} (m : M A) (k : A -> M B) :
  halts m -> (forall a, halts (k a)) -> halts (bind m k).
Proof.
  intros Hm Hk h. unfold outcome.
  destruct (m h) as [t1 r] eqn:E. destruct r as [a | e |].
  - rewrite (bind_ret m k h t1 a E). simpl. apply Hk.
  - rewrite (bind_raise m k h t1 e E). discriminate.
  - exfalso. apply (Hm h). unfold outcome. rewrite E. reflexivity.
Qed.

Lemma returns_bind {A B : Type} (m : M A) (k : A -> M B) :
  returns m -> (forall a, returns (k a)) -> returns (bind m k).
Proof.
  intros Hm Hk h. destruct (Hm h) as [a Ha].
  unfold outcome at 1. rewrite (bind_ret m k h (emitted m h) a).
  - simpl. apply Hk.
  - rewrite (run_eta m h), Ha. reflexivity.
Qed.

Lemma returns_try {A : Type} (m : M A) (handler : exn -> M A) :
  halts m -> (forall e, returns (handler e)) -> returns (try_except m handler).
Proof.
  intros Hm Hh h. unfold outcome.
  destruct (m h) as [t1 r] eqn:E. destruct r as [a | e |].
  - rewrite (try_ret m handler h t1 a E). exists a. reflexivity.
  - rewrite (try_raise m handler h t1 e E). simpl. apply Hh.
  - exfalso. apply (Hm h). unfold outcome. rewrite E. reflexivity.
Qed.

Lemma halts_bind_ret {A B : Type} (a : A) (k : A -> M B) :
  halts (k a) -> halts (bind (ret a) k).
Proof.
  intros Hk h. unfold outcome.
  rewrite (bind_ret (ret a) k h [] a eq_refl). simpl. apply Hk.
Qed.

Lemma halts_if {A : Type} (b : bool) (m1 m2 : M A) :
  halts m1 -> halts m2 -> halts (if b then m1 else m2).
Proof. destruct b; auto. Qed.

Lemma returns_if {A : Type} (b : bool) (m1 m2 : M A) :
  returns m1 -> returns m2 -> returns (if b then m1 else m2).
Proof. destruct b; auto. Qed.

Lemma returns_for_each {A : Type} (xs : list A) (body : A -> M unit) :
  (forall x, returns (body x)) -> returns (for_each xs body).
Proof.
  intros Hb. induction xs as [| x xs IH]; simpl.
  - apply returns_ret.
  - apply returns_bind; auto.
Qed.

Lemma halts_for_each {A : Type} (xs : list A) (body : A -> M unit) :
  (forall x, halts (body x)) -> halts (for_each xs body).
Proof.
  intros Hb. induction xs as [| x xs IH]; simpl.
  - apply returns_halts, returns_ret.
  - apply halts_bind; auto.
Qed.

Create HintDb ends.

#[local] Hint Resolve returns_ret returns_emit returns_logger returns_sleep returns_ask
  halts_raise halts_lift halts_bus halts_dev halts_dev_read : ends.
#[local] Hint Resolve returns_halts | 10 : ends.

(** Splits a goal [returns m] or [halts m] along the shape of [m]. *)
Ltac ends :=
  repeat first
    [ progress intros
    | apply returns_bind
    | apply returns_try
    | apply returns_for_each
    | apply returns_if
    | apply halts_bind_ret
    | apply halts_bind
    | apply halts_for_each
    | apply halts_if
    | solve [ auto with ends ]
    | match goal with
      | |- halts (try_except _ _) => apply returns_halts
      | |- returns (match ?x with _ => _ end) => destruct x
      | |- halts (match ?x with _ => _ end) => destruct x
      | |- returns (let (_, _) := ?x in _) => destruct x
      | |- halts (let (_, _) := ?x in _) => destruct x
      end ].

Lemma mqtt_publish_returns (w : World) (topic payload : string) (retain : bool) :
  returns (mqtt_publish w topic payload retain).
Proof. unfold mqtt_publish, client_connected. ends. Qed.

Lemma get_state_returns (w : World) : returns (get_state w).
Proof. unfold get_state, get_state_failed. ends. Qed.

Lemma get_apps_returns (w : World) : returns (get_apps w).
Proof. unfold get_apps. ends. Qed.

(** ** The executor ends, and two levels of calls are enough *)

Lemma step_fuel (w : World) (n : nat) (action : json) :
  execute_command_fuel w (S n) action [] = execute_command_fuel w 1 action [].
Proof. reflexivity. Qed.

Lemma execute_command_fuel_enough (w : World) (n : nat) (action : json) (kwargs : dict) :
  execute_command_fuel w (S (S n)) action kwargs = execute_command w action kwargs.
Proof. reflexivity. Qed.

Lemma step_returns (w : World) (action : json) :
  returns (execute_command_fuel w 1 action []).
Proof.
  simpl. destruct (atv w) as [d |]; [| ends].
  apply returns_try; [| ends].
  apply halts_bind; [| ends].
  repeat (apply halts_if; [ends |]).
  all: ends.
Qed.

Lemma execute_command_returns (w : World) (action : json) (kwargs : dict) :
  returns (execute_command w action kwargs).
Proof.
  unfold execute_command.
  simpl. destruct (atv w) as [d |]; [| ends].
  apply returns_try; [| ends].
  apply halts_bind; [| ends].
  repeat (apply halts_if; [ends |]).
  all: ends.
Qed.

(* ===================================================================== *)
(** * Configuration validation (C5) *)
(* ===================================================================== *)

Lemma missing_iff (env : Env) (var : string) :
  In var (Config.missing env)
  <-> In var Config.REQUIRED_VARS /\ (env var = None \/ env var = Some "").
Proof.
  unfold Config.missing. rewrite filter_In. unfold Config.not_getenv.
  split; intros [Hin Hm]; split; auto.
  - destruct (env var) as [s |]; [| now left].
    right. apply String.eqb_eq in Hm. now subst.
  - destruct Hm as [-> | ->]; reflexivity.
Qed.

Lemma validate_cases (env : Env) :
  (Config.missing env = [] /\ Config._validate env = Started tt)
  \/ (Config.missing env <> [] /\
      Config._validate env
      = SysExit 1
          [ ("ERROR: Missing required environment variables: "
             ++ String.concat ", " (Config.missing env))%string;
            "Please check your .env file. See .env.example for reference." ]).
Proof.
  unfold Config._validate. destruct (Config.missing env) as [| v m].
  - left. split; reflexivity.
  - right. split; [discriminate | reflexivity].
Qed.

(** C5, the claim as stated fails: with the thirteen keys the specification
    calls required all set and only the log level absent, validation does
    not succeed; the process exits with status 1 and lists LOG_LEVEL. *)
Lemma validate_rejects_absent_log_level :
  forallb (is_set Demo.env_without_log_level) spec_required_keys = true
  /\ Demo.env_without_log_level "LOG_LEVEL" = None
  /\ Config.__init__ Demo.py_int Demo.env_without_log_level
     = SysExit 1
         [ "ERROR: Missing required environment variables: LOG_LEVEL";
           "Please check your .env file. See .env.example for reference." ].
Proof. repeat split. Qed.

(** C5, amended: validation exits with status 1, printing the listing of
    the missing keys, exactly when some key of REQUIRED_VARS is unset or
    set to the empty string, and the keys it lists are exactly those.  The
    log-level key is on that list; so whenever the configuration loads,
    the log level is the upper-cased value of the environment.  The loader
    itself falls back to INFO when the key is absent. *)
Theorem validate_exits_iff_required_missing (env : Env) :
  ((exists printed, Config._validate env = SysExit 1 printed)
   <-> (exists var, In var Config.REQUIRED_VARS
                    /\ (env var = None \/ env var = Some "")))
  /\ (Config._validate env = Started tt
      \/ Config._validate env
         = SysExit 1
             [ ("ERROR: Missing required environment variables: "
                ++ String.concat ", " (Config.missing env))%string;
               "Please check your .env file. See .env.example for reference." ])
  /\ (forall var, In var (Config.missing env)
                  <-> In var Config.REQUIRED_VARS
                      /\ (env var = None \/ env var = Some ""))
  /\ In "LOG_LEVEL" Config.REQUIRED_VARS
  /\ (forall py_int c,
        Config.__init__ py_int env = Started c ->
        exists s, env "LOG_LEVEL" = Some s /\ s <> ""
                  /\ Config.log_level c = upper s)
  /\ (forall py_int c,
        env "LOG_LEVEL" = None ->
        Config._load py_int env = inr c -> Config.log_level c = "INFO").
Proof.
  assert (Hlog : In "LOG_LEVEL" Config.REQUIRED_VARS) by (simpl; tauto).
  refine (conj _ (conj _ (conj (missing_iff env) (conj Hlog (conj _ _))))).
  - split.
    + intros [printed Hp].
      destruct (validate_cases env) as [[_ Hv] | [Hne _]]; [congruence |].
      destruct (Config.missing env) as [| var m] eqn:E; [congruence |].
      exists var. apply missing_iff. rewrite E. now left.
    + intros [var Hvar]. apply missing_iff in Hvar.
      destruct (validate_cases env) as [[He _] | [_ Hv]].
      * rewrite He in Hvar. destruct Hvar.
      * eexists. exact Hv.
  - destruct (validate_cases env) as [[_ Hv] | [_ Hv]]; auto.
  - intros py_int c Hinit. unfold Config.__init__ in Hinit.
    destruct (validate_cases env) as [[He Hv] | [_ Hv]];
      rewrite Hv in Hinit; [| discriminate].
    destruct (env "LOG_LEVEL") as [s |] eqn:El.
    + exists s. split; [reflexivity |]. split.
      * intros ->.
        assert (Hm : In "LOG_LEVEL" (Config.missing env))
          by (apply missing_iff; auto).
        rewrite He in Hm. destruct Hm.
      * unfold Config._load, Config.with_int in Hinit.
        repeat match type of Hinit with
               | context [Config.int_getenv ?p ?e ?v] =>
                   destruct (Config.int_getenv p e v); [discriminate |]
               end.
        injection Hinit as <-. simpl. rewrite El. reflexivity.
    + assert (Hm : In "LOG_LEVEL" (Config.missing env))
        by (apply missing_iff; auto).
      rewrite He in Hm. destruct Hm.
  - intros py_int c El Hload.
    unfold Config._load, Config.with_int in Hload.
    repeat match type of Hload with
           | context [Config.int_getenv ?p ?e ?v] =>
               destruct (Config.int_getenv p e v); [discriminate |]
           end.
    injection Hload as <-. simpl. rewrite El. reflexivity.
Qed.

(* ===================================================================== *)
(** * Publishing (C7) *)
(* ===================================================================== *)

Lemma mqtt_publish_run
  (w : World) (topic payload : string) (retain : bool) (h : list Event) :
  let call := Publish topic payload (Config.mqtt_qos (config w)) retain in
  mqtt_publish w topic payload retain h
  = (if bus_connected w h then
       [ EBus call;
         match env_bus_raises w h call with
         | None => ELog Debug (MsgPublished topic (substring 0 100 payload))
         | Some e => ELog Error (MsgPublishError e)
         end ]
     else [ELog Warning MsgNotConnected], Ret tt).
Proof.
  intros call.
  unfold mqtt_publish, client_connected, bus_connected, try_except, bind, bus, ask.
  destruct (mqtt_client w) as [c |]; simpl; [| reflexivity].
  rewrite !app_nil_r. fold call.
  destruct (env_is_connected w h); simpl; [| reflexivity].
  destruct (env_bus_raises w h call); reflexivity.
Qed.

(** C7: a call of [mqtt_publish] always returns normally.  When the bus
    client is absent or not connected it sends nothing and logs one
    warning; otherwise it makes exactly one [publish] call, with the topic,
    payload and retain flag it was given and the configured quality of
    service, and an exception of that call ends in an error record, not at
    the caller. *)
Theorem mqtt_publish_never_raises
  (w : World) (topic payload : string) (retain : bool) (h : list Event) :
  let call := Publish topic payload (Config.mqtt_qos (config w)) retain in
  outcome (mqtt_publish w topic payload retain) h = Ret tt
  /\ emitted (mqtt_publish w topic payload retain) h
     = (if bus_connected w h then
          [ EBus call;
            match env_bus_raises w h call with
            | None => ELog Debug (MsgPublished topic (substring 0 100 payload))
            | Some e => ELog Error (MsgPublishError e)
            end ]
        else [ELog Warning MsgNotConnected])
  /\ publishes (emitted (mqtt_publish w topic payload retain) h)
     = (if bus_connected w h then [(topic, payload, retain)] else []).
Proof.
  intros call.
  unfold outcome, emitted. rewrite mqtt_publish_run. fold call. cbn [fst snd].
  repeat split.
  destruct (bus_connected w h); simpl; [| reflexivity].
  destruct (env_bus_raises w h call); reflexivity.
Qed.

(* ===================================================================== *)
(** * The guards of the executor (C8) *)
(* ===================================================================== *)

Lemma outside_catalogue (action : json) :
  str_in action catalogue = false ->
  Forall (fun name => str_eq action name = false) catalogue.
Proof.
  unfold str_in. intros H. apply Forall_forall. intros name Hin.
  destruct (str_eq action name) eqn:E; [| reflexivity].
  assert (Hex : existsb (str_eq action) catalogue = true)
    by (apply existsb_exists; eauto).
  congruence.
Qed.

(** Rewrites the tests of the dispatch on an action outside the catalogue. *)
Ltac outside H :=
  let F := fresh "F" in
  pose proof (outside_catalogue _ H) as F;
  unfold catalogue in F;
  repeat match type of F with
         | Forall _ (_ :: _) =>
             let E := fresh "E" in
             let F' := fresh "F" in
             apply Forall_cons_iff in F; destruct F as [E F'];
             rewrite ?E; clear E; rename F' into F
         end;
  clear F.

(** C8: without a device session, and for an action name outside the
    catalogue, a call of [execute_command] adds one warning to the log and
    nothing else: no device call is made, and the call returns normally. *)
Theorem execute_command_guarded
  (w : World) (action : json) (kwargs : dict) (h : list Event) :
  atv w = None \/ str_in action catalogue = false ->
  execute_command w action kwargs h
  = ([ELog Warning
        match atv w with
        | None => MsgNoDevice
        | Some _ => MsgUnknownAction action
        end], Ret tt)
  /\ existsb is_dev_call (emitted (execute_command w action kwargs) h) = false.
Proof.
  intros Hguard.
  assert (Hrun : execute_command w action kwargs h
                 = ([ELog Warning
                       match atv w with
                       | None => MsgNoDevice
                       | Some _ => MsgUnknownAction action
                       end], Ret tt)).
  { unfold execute_command. simpl.
    destruct (atv w) as [d |] eqn:Hatv; [| reflexivity].
    destruct Hguard as [Hnone | Hout]; [discriminate |].
    outside Hout. reflexivity. }
  split; [exact Hrun |].
  unfold emitted. rewrite Hrun. reflexivity.
Qed.

Lemma execute_command_guarded_witness :
  execute_command Demo.world_no_device (JStr "play") [] []
  = ([ELog Warning MsgNoDevice], Ret tt)
  /\ existsb is_dev_call
       (emitted (execute_command Demo.world_no_device (JStr "play") []) []) = false.
Proof.
  apply (execute_command_guarded Demo.world_no_device (JStr "play") [] []).
  left. reflexivity.
Defined.

(* ===================================================================== *)
(** * Fetching the state (C3) *)
(* ===================================================================== *)

(** C3: when the call of [atv.metadata.playing()] raises, [get_state] logs
    the error and returns the default snapshot, whose thirteen fields are
    all null; the exception does not reach the caller. *)
Theorem get_state_fail_soft (w : World) (d : Device) (h : list Event) (e : exn) :
  atv w = Some d ->
  env_playing w h = inl e ->
  get_state w h
  = ([EDev MetadataPlaying; ELog Error (MsgStateError e); ELog Debug MsgTraceback],
     Ret default_state)
  /\ forallb (fun kv => is_null (snd kv)) default_state = true
  /\ map fst default_state
     = [ "media_type"; "device_state"; "title"; "artist"; "album"; "genre";
         "position"; "total_time"; "repeat"; "shuffle"; "app"; "app_id";
         "power_state" ].
Proof.
  intros Hatv Hplaying. split; [| split; reflexivity].
  unfold get_state. rewrite Hatv.
  erewrite try_raise.
  2: { apply bind_raise. unfold dev_read. rewrite Hplaying. reflexivity. }
  reflexivity.
Qed.

Lemma get_state_fail_soft_witness :
  get_state Demo.world_failing []
  = ([ EDev MetadataPlaying;
       ELog Error (MsgStateError (Exn "ConnectionLostError" "device went away"));
       ELog Debug MsgTraceback ],
     Ret default_state)
  /\ forallb (fun kv => is_null (snd kv)) default_state = true
  /\ map fst default_state
     = [ "media_type"; "device_state"; "title"; "artist"; "album"; "genre";
         "position"; "total_time"; "repeat"; "shuffle"; "app"; "app_id";
         "power_state" ].
Proof.
  apply (get_state_fail_soft Demo.world_failing Demo.device []
           (Exn "ConnectionLostError" "device went away"));
    reflexivity.
Defined.

(* ===================================================================== *)
(** * Composite commands (C2, C10) *)
(* ===================================================================== *)

Lemma bind_pure {A B : Type} (a : A) (k : A -> M B) (h : list Event) :
  bind (ret a) k h = k a h.
Proof.
  rewrite (bind_ret (ret a) k h [] a eq_refl).
  rewrite app_nil_r. simpl. symmetry. apply run_eta.
Qed.

Lemma multi_step_run (w : World) (c : json) (h : list Event) :
  multi_step w c h
  = (emitted (execute_command w c []) h ++ [ESleep multi_pause], Ret tt).
Proof.
  unfold multi_step.
  rewrite (bind_ret _ _ h _ tt (returns_unit _ h (step_returns w c))).
  reflexivity.
Qed.

Lemma for_each_steps (w : World) (cs : list json) (h : list Event) :
  for_each cs (multi_step w) h = (multi_steps w cs h, Ret tt).
Proof.
  revert h. induction cs as [| c cs IH]; intros h.
  - reflexivity.
  - cbn [for_each multi_steps].
    rewrite (bind_ret _ _ h _ tt (multi_step_run w c h)).
    unfold emitted, outcome. rewrite IH. reflexivity.
Qed.

Lemma multi_steps_app (w : World) (cs1 cs2 : list json) (h : list Event) :
  multi_steps w (cs1 ++ cs2) h
  = multi_steps w cs1 h ++ multi_steps w cs2 (h ++ multi_steps w cs1 h).
Proof.
  revert h. induction cs1 as [| c cs1 IH]; intros h.
  - simpl. rewrite app_nil_r. reflexivity.
  - cbn [app multi_steps]. rewrite IH, <- !app_assoc. reflexivity.
Qed.

(** The [multi] branch of the executor, with a device session. *)
Lemma execute_command_multi_branch (w : World) (kwargs : dict) :
  execute_command w (JStr "multi") kwargs
  = match atv w with
    | None => logger Warning MsgNoDevice
    | Some d =>
        try_except
          (flow <- (cmds <- lift (py_iter (dict_get "commands" (JArr []) kwargs)) ;;
                    for_each cmds (multi_step w) ;;
                    ret FallThrough) ;;
           match flow with
           | FallThrough => logger Info (MsgExecuted (JStr "multi"))
           | Returned => ret tt
           end)
          (fun e =>
             logger Error (MsgCommandError (JStr "multi") e) ;;
             logger Debug MsgTraceback)
    end.
Proof. reflexivity. Qed.

Lemma execute_command_multi
  (w : World) (d : Device) (kwargs : dict) (cs : list json) (h : list Event) :
  atv w = Some d ->
  dict_lookup "commands" kwargs = Some (JArr cs) ->
  execute_command w (JStr "multi") kwargs h
  = (multi_steps w cs h ++ [ELog Info (MsgExecuted (JStr "multi"))], Ret tt).
Proof.
  intros Hatv Hcs. rewrite execute_command_multi_branch, Hatv.
  apply try_ret.
  unfold dict_get. rewrite Hcs. cbn [py_iter lift].
  erewrite bind_ret.
  2: { rewrite bind_pure. erewrite bind_ret by apply for_each_steps.
       unfold emitted, outcome, ret. cbn [fst snd].
       rewrite app_nil_r. reflexivity. }
  reflexivity.
Qed.

(** A step called with the action name alone. *)
Ltac step_case name lit :=
  destruct (String.eqb name lit) eqn:?;
  [ cbn [orb]; try destruct (has_power _);
    try match goal with
        | |- context [env_device_raises ?w ?h ?c] => destruct (env_device_raises w h c)
        end;
    reflexivity
  | ].

Lemma bare_step_run (w : World) (d : Device) (action : json) (h : list Event) :
  atv w = Some d ->
  execute_command w action [] h = (step_events w d action h, Ret tt).
Proof.
  intros Hatv. unfold execute_command. cbn [execute_command_fuel]. rewrite Hatv.
  unfold step_events, step_call, rc_call, power_call, str_in, catalogue.
  destruct action as [| b | n | f | name | l | o]; try reflexivity.
  cbn [existsb str_eq].
  unfold try_except, bind, dev, logger, emit, ret, lift.
  cbn [dict_get dict_lookup py_iter truthy andb for_each].
  step_case name "up". step_case name "down". step_case name "left".
  step_case name "right". step_case name "select". step_case name "menu".
  step_case name "home". step_case name "play". step_case name "pause".
  step_case name "play_pause". step_case name "stop". step_case name "next".
  step_case name "previous". step_case name "turn_on". step_case name "turn_off".
  step_case name "wakeup". step_case name "suspend". step_case name "launch_app".
  step_case name "play_url". step_case name "multi".
  destruct (has_power d); reflexivity.
Qed.

(** C2: with a device session, a [multi] command with the list
    [c1, ..., cn] runs the steps in list order: each step is one call of
    the executor on [ci], followed by the pause of 0.3 s, and starts from
    the history the steps before it left.  Every such call returns
    normally whatever the device does, so the loop always reaches the next
    step: a step whose device call raises logs the error in its own call,
    instead of the record of its execution. *)
Theorem multi_runs_every_step
  (w : World) (d : Device) (kwargs : dict) (cs : list json) (h : list Event) :
  atv w = Some d ->
  dict_lookup "commands" kwargs = Some (JArr cs) ->
  execute_command w (JStr "multi") kwargs h
  = (multi_steps w cs h ++ [ELog Info (MsgExecuted (JStr "multi"))], Ret tt)
  /\ (forall c cs' h',
        multi_steps w (c :: cs') h'
        = step_events w d c h' ++ [ESleep 300]
            ++ multi_steps w cs' (h' ++ step_events w d c h' ++ [ESleep 300]))
  /\ (forall c h', execute_command w c [] h' = (step_events w d c h', Ret tt)).
Proof.
  intros Hatv Hcs. split; [| split].
  - apply (execute_command_multi w d); assumption.
  - intros c cs' h'. cbn [multi_steps]. unfold emitted.
    rewrite (bare_step_run w d c h' Hatv). cbn [fst].
    rewrite <- app_assoc. reflexivity.
  - intros c h'. apply bare_step_run. exact Hatv.
Qed.

Lemma multi_runs_every_step_witness :
  execute_command Demo.world_failing (JStr "multi")
    [("commands", JArr [JStr "play"; JStr "select"])] []
  = ([ EDev RcPlay;
       ELog Error (MsgCommandError (JStr "play")
                     (Exn "ConnectionLostError" "device went away"));
       ELog Debug MsgTraceback;
       ESleep 300;
       EDev RcSelect;
       ELog Error (MsgCommandError (JStr "select")
                     (Exn "ConnectionLostError" "device went away"));
       ELog Debug MsgTraceback;
       ESleep 300;
       ELog Info (MsgExecuted (JStr "multi")) ], Ret tt).
Proof.
  exact (proj1 (multi_runs_every_step Demo.world_failing Demo.device
                  [("commands", JArr [JStr "play"; JStr "select"])]
                  [JStr "play"; JStr "select"] [] eq_refl eq_refl)).
Defined.

(** C10: the steps of a [multi] command are called with the action name
    alone, whatever other parameters the command carries.  So a step
    "launch_app", "play_url" or "multi" makes no device call: it only
    reports itself executed, the pause follows, and the steps after it
    run as they would have. *)
Theorem multi_step_gets_no_parameters
  (w : World) (d : Device) (kwargs : dict) (cs1 cs2 : list json)
  (name : string) (h : list Event) :
  atv w = Some d ->
  In name ["launch_app"; "play_url"; "multi"] ->
  dict_lookup "commands" kwargs = Some (JArr (cs1 ++ JStr name :: cs2)) ->
  let t := multi_steps w cs1 h
           ++ [ELog Info (MsgExecuted (JStr name)); ESleep multi_pause] in
  (forall h', execute_command w (JStr name) [] h'
              = ([ELog Info (MsgExecuted (JStr name))], Ret tt))
  /\ multi_steps w [JStr name] (h ++ multi_steps w cs1 h)
     = [ELog Info (MsgExecuted (JStr name)); ESleep multi_pause]
  /\ execute_command w (JStr "multi") kwargs h
     = (t ++ multi_steps w cs2 (h ++ t)
          ++ [ELog Info (MsgExecuted (JStr "multi"))], Ret tt).
Proof.
  intros Hatv Hin Hcs t.
  assert (Hbare : forall h', execute_command w (JStr name) [] h'
                             = ([ELog Info (MsgExecuted (JStr name))], Ret tt)).
  { intros h'. rewrite (bare_step_run w d _ h' Hatv). f_equal.
    simpl in Hin.
    destruct Hin as [<- | [<- | [<- | []]]];
      unfold step_events, step_call; simpl; destruct (has_power d); reflexivity. }
  assert (Hone : forall h', multi_steps w [JStr name] h'
                            = [ELog Info (MsgExecuted (JStr name)); ESleep multi_pause]).
  { intros h'. cbn [multi_steps]. unfold emitted. rewrite Hbare. reflexivity. }
  split; [exact Hbare | split; [apply Hone |]].
  rewrite (execute_command_multi w d kwargs _ h Hatv Hcs).
  f_equal.
  change (cs1 ++ JStr name :: cs2) with (cs1 ++ [JStr name] ++ cs2).
  rewrite !multi_steps_app, Hone. subst t.
  rewrite <- !app_assoc. reflexivity.
Qed.

Lemma multi_step_gets_no_parameters_witness :
  execute_command Demo.world (JStr "multi")
    [ ("commands", JArr [JStr "play"; JStr "launch_app"; JStr "select"]);
      ("app_id", JStr "com.apple.TVWatchList") ] []
  = ([ EDev RcPlay; ELog Info (MsgExecuted (JStr "play")); ESleep 300;
       ELog Info (MsgExecuted (JStr "launch_app")); ESleep 300;
       EDev RcSelect; ELog Info (MsgExecuted (JStr "select")); ESleep 300;
       ELog Info (MsgExecuted (JStr "multi")) ], Ret tt).
Proof.
  exact (proj2 (proj2
    (multi_step_gets_no_parameters Demo.world Demo.device
       [ ("commands", JArr [JStr "play"; JStr "launch_app"; JStr "select"]);
         ("app_id", JStr "com.apple.TVWatchList") ]
       [JStr "play"] [JStr "select"] "launch_app" []
       eq_refl (or_introl eq_refl) eq_refl))).
Defined.

(* ===================================================================== *)
(** * What a computation emits *)
(* ===================================================================== *)

Section Emits.

Variable P : Event -> Prop.

Lemma emits_ret {A : Type} (a : A) : emits P (ret a).
Proof. intros h. constructor. Qed.

Lemma emits_raise {A : Type} (e : exn) : emits P (@raise A e).
Proof. intros h. constructor. Qed.

Lemma emits_out_of_fuel {A : Type} : emits P (@out_of_fuel A).
Proof. intros h. constructor. Qed.

Lemma emits_ask {A : Type} (f : list Event -> A) : emits P (ask f).
Proof. intros h. constructor. Qed.

Lemma emits_lift {A : Type} (r : exn + A) : emits P (lift r).
Proof. intros h. destruct r; constructor. Qed.

Lemma emits_emit (e : Event) : P e -> emits P (emit e).
Proof. intros He h. repeat constructor. exact He. Qed.

Lemma emits_bus (w : World) (c : BusCall) : P (EBus c) -> emits P (bus w c).
Proof. intros He h. repeat constructor. exact He. Qed.

Lemma emits_dev (w : World) (c : DevCall) : P (EDev c) -> emits P (dev w c).
Proof. intros He h. repeat constructor. exact He. Qed.

Lemma emits_dev_read {A : Type} (c : DevCall) (answer : list Event -> exn + A) :
  P (EDev c) -> emits P (dev_read c answer).
Proof. intros He h. repeat constructor. exact He. Qed.

Lemma emits_bind {A B : Type} (m : M A) (k : A -> M B) :
  emits P m -> (forall a, emits P (k a)) -> emits P (bind m k).
Proof.
  intros Hm Hk h. unfold emitted.
  destruct (m h) as [t1 r] eqn:E.
  assert (Ht1 : Forall P t1) by (specialize (Hm h); unfold emitted in Hm; now rewrite E in Hm).
  destruct r as [a | e |].
  - rewrite (bind_ret m k h t1 a E). simpl. apply Forall_app. split; [exact Ht1 | apply Hk].
  - rewrite (bind_raise m k h t1 e E). exact Ht1.
  - unfold bind. rewrite E. exact Ht1.
Qed.

Lemma emits_try {A : Type} (m : M A) (handler : exn -> M A) :
  emits P m -> (forall e, emits P (handler e)) -> emits P (try_except m handler).
Proof.
  intros Hm Hh h. unfold emitted.
  destruct (m h) as [t1 r] eqn:E.
  assert (Ht1 : Forall P t1) by (specialize (Hm h); unfold emitted in Hm; now rewrite E in Hm).
  destruct r as [a | e |].
  - rewrite (try_ret m handler h t1 a E). exact Ht1.
  - rewrite (try_raise m handler h t1 e E). simpl. apply Forall_app. split; [exact Ht1 | apply Hh].
  - unfold try_except. rewrite E. exact Ht1.
Qed.

Lemma emits_if {A : Type} (b : bool) (m1 m2 : M A) :
  emits P m1 -> emits P m2 -> emits P (if b then m1 else m2).
Proof. destruct b; auto. Qed.

Lemma emits_for_each_in {A : Type} (xs : list A) (body : A -> M unit) :
  (forall x, In x xs -> emits P (body x)) -> emits P (for_each xs body).
Proof.
  induction xs as [| x xs IH]; intros Hb; simpl.
  - apply emits_ret.
  - apply emits_bind.
    + apply Hb. now left.
    + intros _. apply IH. intros y Hy. apply Hb. now right.
Qed.

Lemma emits_for_each {A : Type} (xs : list A) (body : A -> M unit) :
  (forall x, emits P (body x)) -> emits P (for_each xs body).
Proof. intros Hb. apply emits_for_each_in. auto. Qed.

End Emits.

(** Splits a goal [emits P m] along the shape of [m]; what is left are the
    events themselves. *)
Ltac emits_by leaf :=
  repeat first
    [ solve [leaf]
    | progress intros
    | apply emits_ret
    | apply emits_raise
    | apply emits_out_of_fuel
    | apply emits_ask
    | apply emits_lift
    | apply emits_bind
    | apply emits_try
    | apply emits_for_each
    | apply emits_if
    | apply emits_emit
    | apply emits_bus
    | apply emits_dev
    | apply emits_dev_read
    | match goal with
      | |- emits _ (match ?x with _ => _ end) => destruct x
      | |- emits _ (let (_, _) := ?x in _) => destruct x
      end ].

Ltac emits := emits_by fail.

Lemma emits_weaken {A : Type} (P Q : Event -> Prop) (m : M A) :
  (forall e, P e -> Q e) -> emits P m -> emits Q m.
Proof. intros HPQ Hm h. eapply Forall_impl; [exact HPQ | apply Hm]. Qed.

Lemma off_bus_publishes (t : list Event) : Forall off_bus t -> publishes t = [].
Proof.
  induction 1 as [| e t He _ IH]; [reflexivity |].
  destruct e; simpl in *; try exact IH. destruct He.
Qed.

Lemma get_state_off_bus (w : World) : emits off_bus (get_state w).
Proof. unfold get_state, get_state_failed, logger. emits; exact I. Qed.

Lemma get_apps_off_bus (w : World) : emits off_bus (get_apps w).
Proof. unfold get_apps, logger. emits; exact I. Qed.

(** A call of [mqtt_publish] adds no bus call but the publish it was asked
    for. *)
Lemma mqtt_publish_emits
  (P : Event -> Prop) (w : World) (topic payload : string) (retain : bool) :
  P (EBus (Publish topic payload (Config.mqtt_qos (config w)) retain)) ->
  (forall lvl msg, P (ELog lvl msg)) ->
  emits P (mqtt_publish w topic payload retain).
Proof.
  intros Hpub Hlog. unfold mqtt_publish, client_connected, logger. emits; auto.
Qed.

(* ===================================================================== *)
(** * The dispatcher (C1, C4) *)
(* ===================================================================== *)

Lemma bind_assoc {A B C : Type} (m : M A) (f : A -> M B) (g : B -> M C) (h : list Event) :
  bind (bind m f) g h = bind m (fun x => bind (f x) g) h.
Proof.
  unfold bind. destruct (m h) as [t1 [a | e |]]; try reflexivity.
  destruct (f a (h ++ t1)) as [t2 [b | e |]]; try reflexivity.
  rewrite <- app_assoc. destruct (g b (h ++ t1 ++ t2)) as [t3 r].
  rewrite <- app_assoc. reflexivity.
Qed.

Lemma bind_ext {A B : Type} (m : M A) (k k' : A -> M B) (h : list Event) :
  (forall a h', k a h' = k' a h') -> bind m k h = bind m k' h.
Proof.
  intros Hk. unfold bind. destruct (m h) as [t1 [a | e |]]; try reflexivity.
  rewrite Hk. reflexivity.
Qed.

Lemma bind_unit_r (m : M unit) (h : list Event) : bind m (fun _ => ret tt) h = m h.
Proof.
  unfold bind, ret. destruct (m h) as [t1 [[] | e |]]; try reflexivity.
  rewrite app_nil_r. reflexivity.
Qed.

(** Proves the equality of two computations that differ by the monad laws
    only, at a history. *)
Ltac monad_eq :=
  repeat (repeat (rewrite bind_assoc || rewrite bind_pure);
          try reflexivity; apply bind_ext; intros ? ?);
  try reflexivity.

Lemma append_inj_l (s a b : string) : (s ++ a)%string = (s ++ b)%string -> a = b.
Proof. induction s as [| c s IH]; simpl; intros H; [exact H | injection H as H; auto]. Qed.

(** The five topics of a configuration are pairwise different. *)
Lemma topics_distinct (c : Config.t) :
  NoDup [ Config.topic_availability c; Config.topic_state c; Config.topic_apps c;
          Config.topic_set c; Config.topic_get c ].
Proof.
  unfold Config.topic_availability, Config.topic_state, Config.topic_apps,
    Config.topic_set, Config.topic_get.
  repeat constructor; simpl; intros H;
    repeat match goal with
           | H : _ \/ _ |- _ => destruct H as [H | H]
           | H : (_ ++ _)%string = (_ ++ _)%string |- _ =>
               apply append_inj_l in H; discriminate
           | H : False |- _ => destruct H
           end.
Qed.

Lemma topic_get_is_not_set (c : Config.t) :
  (Config.topic_get c =? Config.topic_set c)%string = false.
Proof.
  apply String.eqb_neq. unfold Config.topic_get, Config.topic_set.
  intros H. apply append_inj_l in H. discriminate.
Qed.

Lemma fetch_and_publish_returns (w : World) (a : Artifact) :
  returns (fetch_and_publish w a).
Proof.
  unfold fetch_and_publish, fetch.
  destruct a; repeat apply returns_bind; intros;
    auto using get_state_returns, get_apps_returns, mqtt_publish_returns, returns_ret.
Qed.

Lemma spec_get_request_returns (w : World) (get_type : json) :
  returns (spec_get_request w get_type).
Proof.
  unfold spec_get_request. apply returns_bind; [| intros; apply returns_logger].
  apply returns_for_each. apply fetch_and_publish_returns.
Qed.

Lemma fetch_and_publish_emits (w : World) (arts : list Artifact) (a : Artifact) :
  In a arts -> emits (publish_of w arts) (fetch_and_publish w a).
Proof.
  intros Hin. unfold fetch_and_publish. apply emits_bind.
  - apply (emits_weaken off_bus).
    + intros [] He; simpl in *; auto. destruct He.
    + unfold fetch. destruct a; apply emits_bind;
        auto using get_state_off_bus, get_apps_off_bus; intros; apply emits_ret.
  - intros payload. apply mqtt_publish_emits.
    + simpl. exists a. auto.
    + intros; exact I.
Qed.

Lemma spec_get_request_emits (w : World) (get_type : json) :
  emits (publish_of w (requested get_type)) (spec_get_request w get_type).
Proof.
  unfold spec_get_request. apply emits_bind.
  - apply emits_for_each_in. intros a Ha. apply fetch_and_publish_emits. exact Ha.
  - intros _. apply emits_emit. exact I.
Qed.

(** The [get] branch of the dispatcher is the get request of the
    specification. *)
Lemma dispatch_get
  (w : World) (payload : string) (d : dict) (h : list Event) :
  json_loads w payload = inr (JObj d) ->
  dispatch w {| msg_topic := Config.topic_get (config w); msg_payload := payload |} h
  = spec_get_request w (dict_get "type" (JStr "all") d) h.
Proof.
  intros Hloads. unfold dispatch. cbn [msg_topic msg_payload].
  rewrite Hloads, topic_get_is_not_set, String.eqb_refl.
  cbn [py_get lift]. rewrite bind_pure.
  unfold spec_get_request, requested, fetch_and_publish, fetch.
  set (get_type := dict_get "type" (JStr "all") d).
  destruct (str_in get_type ["state"; "all"]), (str_in get_type ["apps"; "all"]);
    cbn [app for_each]; monad_eq.
Qed.

(** C1: a message on the get topic whose payload decodes to an object is
    handled as the get request of its [type] field, "all" when the field
    is absent: the state is fetched and published to the state topic
    non-retained when the type is "state" or "all", then the app list is
    fetched and published to the apps topic retained when it is "apps" or
    "all".  Every publish of the request is one of these, the request
    always returns normally, and with any other type it only writes its
    log record. *)
Theorem get_request_dispatch
  (w : World) (payload : string) (d : dict) (h : list Event) :
  json_loads w payload = inr (JObj d) ->
  let get_type := dict_get "type" (JStr "all") d in
  let msg := {| msg_topic := Config.topic_get (config w); msg_payload := payload |} in
  dispatch w msg h
  = (for_each (requested get_type) (fetch_and_publish w) ;;
     logger Info (MsgForcedUpdate get_type)) h
  /\ outcome (dispatch w msg) h = Ret tt
  /\ Forall (publish_of w (requested get_type)) (emitted (dispatch w msg) h)
  /\ (dict_lookup "type" d = None -> requested get_type = [StateArtifact; AppsArtifact])
  /\ (str_in get_type ["state"; "apps"; "all"] = false ->
      dispatch w msg h = ([ELog Info (MsgForcedUpdate get_type)], Ret tt)).
Proof.
  intros Hloads get_type msg.
  assert (Hd : dispatch w msg h = spec_get_request w get_type h)
    by (apply dispatch_get; exact Hloads).
  split; [exact Hd |]. split; [| split; [| split]].
  - unfold outcome. rewrite Hd.
    rewrite (returns_unit _ h (spec_get_request_returns w get_type)). reflexivity.
  - unfold emitted. rewrite Hd. apply spec_get_request_emits.
  - intros Hnone. unfold get_type, dict_get. rewrite Hnone. reflexivity.
  - intros Hother. rewrite Hd. unfold spec_get_request, requested.
    assert (Hs : str_in get_type ["state"; "all"] = false
                 /\ str_in get_type ["apps"; "all"] = false).
    { unfold str_in in *. simpl in *.
      destruct (str_eq get_type "state"), (str_eq get_type "apps"),
        (str_eq get_type "all"); simpl in *; auto; discriminate. }
    destruct Hs as [-> ->]. reflexivity.
Qed.

Lemma get_request_dispatch_witness :
  publishes
    (emitted (dispatch Demo.world {| msg_topic := Config.topic_get (config Demo.world);
                   msg_payload := "{}" |}) [])
  = [ ("appletv/state",
       Demo.dumps
         (JObj (dict_set "power_state" (JStr "On")
                  (set_app_fields (Some Demo.tv_app)
                     (set_playing_fields Demo.now_playing default_state)))),
       false);
      ("appletv/apps", Demo.dumps (JArr [app_entry Demo.tv_app]), true) ]
  /\ outcome (dispatch Demo.world {| msg_topic := Config.topic_get (config Demo.world);
                   msg_payload := "{}" |}) []
     = Ret tt.
Proof.
  pose proof (get_request_dispatch Demo.world "{}" [] [] eq_refl) as [Hrun [Hout _]].
  split; [| exact Hout].
  unfold emitted. rewrite Hrun. reflexivity.
Defined.

Lemma dict_pop_rest (k : string) (default : json) (d : dict) :
  dict_lookup k (snd (dict_pop k default d)) = None
  /\ (forall k', k' <> k ->
        dict_lookup k' (snd (dict_pop k default d)) = dict_lookup k' d).
Proof.
  unfold dict_pop. cbn [snd]. split.
  - induction d as [| [k1 v] d IH]; [reflexivity |].
    cbn [filter fst]. destruct (String.eqb_spec k1 k) as [-> | Hne]; cbn [negb].
    + exact IH.
    + cbn [dict_lookup]. destruct (String.eqb_spec k1 k); [contradiction | exact IH].
  - intros k' Hk'. induction d as [| [k1 v] d IH]; [reflexivity |].
    cbn [filter fst]. destruct (String.eqb_spec k1 k) as [-> | Hne]; cbn [negb].
    + cbn [dict_lookup]. destruct (String.eqb_spec k k'); [congruence | exact IH].
    + cbn [dict_lookup]. rewrite IH. reflexivity.
Qed.

(** C4, the claim as stated fails: a set message whose object has no
    [action] field is dropped without any log record, so no warning is
    logged. *)
Lemma set_request_without_action_is_silent :
  json_loads Demo.world "{}" = inr (JObj [])
  /\ dict_lookup "action" [] = None
  /\ dispatch Demo.world
       {| msg_topic := Config.topic_set (config Demo.world); msg_payload := "{}" |} []
     = ([], Ret tt)
  /\ existsb is_warning
       (emitted (dispatch Demo.world
                   {| msg_topic := Config.topic_set (config Demo.world);
                      msg_payload := "{}" |}) []) = false.
Proof. repeat split. Qed.

(** C4, amended: a message on the set topic whose payload decodes to an
    object is dropped without a log record and without any call of the
    executor when the [action] field is absent or has a false truth value
    (null, false, 0, an empty string, list or object); otherwise the
    executor is called once with that action and with all the other
    fields of the object as parameters, and the dispatch returns
    normally. *)
Theorem set_request_dispatch
  (w : World) (payload : string) (d : dict) (h : list Event) :
  json_loads w payload = inr (JObj d) ->
  let action := dict_get "action" JNull d in
  let rest := snd (dict_pop "action" JNull d) in
  let msg := {| msg_topic := Config.topic_set (config w); msg_payload := payload |} in
  dispatch w msg h
  = (if truthy action then execute_command w action rest h else ([], Ret tt))
  /\ (dict_lookup "action" d = None -> dispatch w msg h = ([], Ret tt))
  /\ dict_lookup "action" rest = None
  /\ (forall k, k <> "action" -> dict_lookup k rest = dict_lookup k d)
  /\ outcome (dispatch w msg) h = Ret tt.
Proof.
  intros Hloads action rest msg.
  assert (Hd : dispatch w msg h
               = (if truthy action then execute_command w action rest h
                  else ([], Ret tt))).
  { unfold dispatch, msg. cbn [msg_topic msg_payload].
    rewrite Hloads, String.eqb_refl. cbn [py_pop lift]. rewrite bind_pure.
    unfold dict_pop. fold action.
    destruct (truthy action); reflexivity. }
  split; [exact Hd |]. split; [| split; [| split]].
  - intros Hnone. rewrite Hd. unfold action, dict_get. rewrite Hnone. reflexivity.
  - apply dict_pop_rest.
  - apply dict_pop_rest.
  - unfold outcome. rewrite Hd. destruct (truthy action); [| reflexivity].
    rewrite (returns_unit _ h (execute_command_returns w action rest)). reflexivity.
Qed.

Lemma set_request_dispatch_witness :
  dispatch Demo.world
    {| msg_topic := Config.topic_set (config Demo.world); msg_payload := "{}" |} []
  = ([], Ret tt).
Proof.
  exact (proj1 (set_request_dispatch Demo.world "{}" [] [] eq_refl)).
Defined.

(* ===================================================================== *)
(** * Retain flags (C6) *)
(* ===================================================================== *)

Lemma off_bus_retain_rule (w : World) (e : Event) : off_bus e -> retain_rule w e.
Proof. destruct e; simpl; auto. intros []. Qed.

Lemma execute_command_fuel_off_bus
  (w : World) (fuel : nat) (action : json) (kwargs : dict) :
  emits off_bus (execute_command_fuel w fuel action kwargs).
Proof.
  revert action kwargs. induction fuel as [| fuel IH]; intros action kwargs.
  - apply emits_out_of_fuel.
  - cbn [execute_command_fuel]. unfold logger, sleep.
    destruct (atv w) as [d |]; emits; auto; exact I.
Qed.

Lemma while_running_emits (P : Event -> Prop) (w : World) (fuel : nat) (body : M unit) :
  emits P body -> emits P (while_running w fuel body).
Proof.
  intros Hb. induction fuel as [| fuel IH]; cbn [while_running]; emits; auto.
Qed.

Lemma setup_mqtt_retain (w : World) : emits (retain_rule w) (setup_mqtt w).
Proof. unfold setup_mqtt. emits; simpl; auto. Qed.

Lemma on_mqtt_connect_retain (w : World) (reason_code : Z) :
  emits (retain_rule w) (on_mqtt_connect w reason_code).
Proof. unfold on_mqtt_connect, logger. emits; simpl; auto. Qed.

Lemma publish_state_retain (w : World) (state : dict) :
  emits (retain_rule w)
    (mqtt_publish w (Config.topic_state (config w)) (json_dumps w (JObj state)) false).
Proof.
  apply mqtt_publish_emits.
  - simpl. right. right. eauto.
  - intros; exact I.
Qed.

Lemma publish_apps_retain (w : World) (apps : list json) :
  emits (retain_rule w)
    (mqtt_publish w (Config.topic_apps (config w)) (json_dumps w (JArr apps)) true).
Proof.
  apply mqtt_publish_emits.
  - simpl. right. left. eauto.
  - intros; exact I.
Qed.

Lemma publish_offline_retain (w : World) :
  emits (retain_rule w)
    (mqtt_publish w (Config.topic_availability (config w)) "offline" true).
Proof.
  apply mqtt_publish_emits.
  - simpl. left. auto.
  - intros; exact I.
Qed.

Lemma get_state_retain (w : World) : emits (retain_rule w) (get_state w).
Proof.
  apply (emits_weaken off_bus); [apply off_bus_retain_rule | apply get_state_off_bus].
Qed.

Lemma get_apps_retain (w : World) : emits (retain_rule w) (get_apps w).
Proof.
  apply (emits_weaken off_bus); [apply off_bus_retain_rule | apply get_apps_off_bus].
Qed.

Lemma execute_command_retain (w : World) (action : json) (kwargs : dict) :
  emits (retain_rule w) (execute_command w action kwargs).
Proof.
  apply (emits_weaken off_bus);
    [apply off_bus_retain_rule | apply execute_command_fuel_off_bus].
Qed.

Create HintDb retain.

#[local] Hint Resolve get_state_retain get_apps_retain execute_command_retain
  publish_state_retain publish_apps_retain publish_offline_retain : retain.

Lemma state_update_round_retain (w : World) :
  emits (retain_rule w) (state_update_round w).
Proof.
  unfold state_update_round, logger, sleep.
  emits_by ltac:(auto with retain); exact I.
Qed.

Lemma apps_update_round_retain (w : World) :
  emits (retain_rule w) (apps_update_round w).
Proof.
  unfold apps_update_round, logger, sleep.
  emits_by ltac:(auto with retain); exact I.
Qed.

Lemma dispatch_retain (w : World) (cmd : InboundMessage) :
  emits (retain_rule w) (dispatch w cmd).
Proof.
  unfold dispatch, logger.
  emits_by ltac:(auto with retain); exact I.
Qed.

Lemma command_round_retain (w : World) : emits (retain_rule w) (command_round w).
Proof.
  unfold command_round, logger.
  emits_by ltac:(auto using dispatch_retain); exact I.
Qed.

Lemma main_device_failed_retain (w : World) :
  emits (retain_rule w) (main_device_failed w).
Proof. unfold main_device_failed, logger. emits; simpl; auto. Qed.

Lemma main_shutdown_retain (w : World) : emits (retain_rule w) (main_shutdown w).
Proof.
  unfold main_shutdown, logger.
  emits_by ltac:(auto with retain); exact I.
Qed.

Lemma perform_retain (w : World) (a : Activity) : emits (retain_rule w) (perform w a).
Proof.
  destruct a; cbn [perform].
  - apply emits_bind; [apply setup_mqtt_retain | intros; apply emits_ret].
  - apply on_mqtt_connect_retain.
  - unfold task_state_update, logger. apply emits_bind; [apply emits_emit; exact I |].
    intros _. apply while_running_emits, state_update_round_retain.
  - unfold task_apps_update, logger. apply emits_bind; [apply emits_emit; exact I |].
    intros _. apply while_running_emits, apps_update_round_retain.
  - unfold task_command_handler, logger. apply emits_bind; [apply emits_emit; exact I |].
    intros _. apply while_running_emits, command_round_retain.
  - apply emits_bind; [apply main_device_failed_retain | intros; apply emits_ret].
  - apply emits_bind; [apply main_shutdown_retain | intros; apply emits_ret].
Qed.

Lemma reachable_retain (w : World) (h : list Event) :
  reachable w h -> Forall (retain_rule w) h.
Proof.
  induction 1 as [| h a _ IH].
  - constructor.
  - apply Forall_app. split; [exact IH | apply perform_retain].
Qed.

(** C6: in every history of the bridge (the last will, the connect
    callback, the two periodic loops, the command loop with its get
    requests, the failed start and the shutdown, in any order), a publish
    goes to one of three topics: to the availability topic with "online"
    or "offline" and retain set, to the apps topic with the serialised app
    list and retain set, or to the state topic with the serialised
    snapshot and retain clear.  The three topics are different, so the
    topic of a publish decides its retain flag. *)
Theorem publishes_carry_their_retain_flag
  (w : World) (h : list Event) (topic payload : string) (qos : Z) (retain : bool) :
  reachable w h ->
  In (EBus (Publish topic payload qos retain)) h ->
  ((topic = Config.topic_availability (config w)
    /\ (payload = "online" \/ payload = "offline") /\ retain = true)
   \/ (topic = Config.topic_apps (config w)
       /\ (exists apps, payload = json_dumps w (JArr apps)) /\ retain = true)
   \/ (topic = Config.topic_state (config w)
       /\ (exists state, payload = json_dumps w (JObj state)) /\ retain = false))
  /\ (topic = Config.topic_availability (config w) -> retain = true)
  /\ (topic = Config.topic_apps (config w) -> retain = true)
  /\ (topic = Config.topic_state (config w) -> retain = false).
Proof.
  intros Hreach Hin.
  pose proof (reachable_retain w h Hreach) as Hall.
  rewrite Forall_forall in Hall. specialize (Hall _ Hin). simpl in Hall.
  split; [exact Hall |].
  pose proof (topics_distinct (config w)) as Hnd.
  inversion_clear Hnd as [| ? ? Hav Hnd1].
  inversion_clear Hnd1 as [| ? ? Hst Hnd2].
  inversion_clear Hnd2 as [| ? ? Hap _].
  simpl in Hav, Hst, Hap.
  destruct Hall as [[-> [_ ->]] | [[-> [_ ->]] | [-> [_ ->]]]];
    repeat split; intros Heq; try reflexivity; exfalso;
    rewrite ?Heq in *; tauto.
Qed.

Lemma publishes_carry_their_retain_flag_witness :
  In (EBus (Publish "appletv/state"
              (json_dumps Demo.world
                 (JObj (dict_set "power_state" (JStr "On")
                          (set_app_fields (Some Demo.tv_app)
                             (set_playing_fields Demo.now_playing default_state)))))
              1 false))
     (emitted (perform Demo.world (ActStateTask 1))
        (emitted (perform Demo.world (ActOnConnect 0)) []))
  /\ ("appletv/state" = Config.topic_state (config Demo.world) -> false = false).
Proof.
  assert (Hin : In (EBus (Publish "appletv/state"
              (json_dumps Demo.world
                 (JObj (dict_set "power_state" (JStr "On")
                          (set_app_fields (Some Demo.tv_app)
                             (set_playing_fields Demo.now_playing default_state)))))
              1 false))
     (emitted (perform Demo.world (ActStateTask 1))
        (emitted (perform Demo.world (ActOnConnect 0)) []))).
  { vm_compute. tauto. }
  split; [exact Hin |].
  refine (proj2 (proj2 (proj2
    (publishes_carry_their_retain_flag Demo.world
       (([] ++ emitted (perform Demo.world (ActOnConnect 0)) [])
        ++ emitted (perform Demo.world (ActStateTask 1))
             ([] ++ emitted (perform Demo.world (ActOnConnect 0)) []))
       _ _ _ _ _ _)))).
  - apply reach_step, reach_step, reach_start.
  - apply in_or_app. right. exact Hin.
Defined.

(* ===================================================================== *)
(** * Shutdown (C9) *)
(* ===================================================================== *)

(** What [main] does after the offline publish, with a device session. *)
Lemma release_run (w : World) (h : list Event) :
  (dev w AtvClose ;; logger Info MsgDeviceClosed ;;
   bus w LoopStop ;; bus w Disconnect ;;
   logger Info MsgBusDisconnected ;; logger Info MsgShutdownComplete ;; ret 0) h
  = match env_device_raises w h AtvClose with
    | Some e => ([EDev AtvClose], Raise e)
    | None =>
        match env_bus_raises w (h ++ [EDev AtvClose; ELog Info MsgDeviceClosed]) LoopStop with
        | Some e => ([EDev AtvClose; ELog Info MsgDeviceClosed; EBus LoopStop], Raise e)
        | None =>
            match env_bus_raises w
                    (h ++ [EDev AtvClose; ELog Info MsgDeviceClosed; EBus LoopStop])
                    Disconnect with
            | Some e =>
                ([EDev AtvClose; ELog Info MsgDeviceClosed; EBus LoopStop; EBus Disconnect],
                 Raise e)
            | None => (EDev AtvClose :: shutdown_after_close, Ret 0)
            end
        end
    end.
Proof.
  unfold bind, dev, bus, logger, emit, ret.
  destruct (env_device_raises w h AtvClose); [reflexivity |].
  cbn [app]. rewrite <- ?app_assoc. cbn [app].
  destruct (env_bus_raises w _ LoopStop); [reflexivity |].
  destruct (env_bus_raises w _ Disconnect); reflexivity.
Qed.

Lemma main_shutdown_run (w : World) (d : Device) (h : list Event) :
  atv w = Some d ->
  let h1 := h ++ shutdown_prefix in
  let pub := emitted (mqtt_publish w (Config.topic_availability (config w)) "offline" true) h1 in
  let release :=
    (dev w AtvClose ;; logger Info MsgDeviceClosed ;;
     bus w LoopStop ;; bus w Disconnect ;;
     logger Info MsgBusDisconnected ;; logger Info MsgShutdownComplete ;; ret 0) in
  main_shutdown w h
  = (shutdown_prefix ++ pub ++ emitted release (h1 ++ pub), outcome release (h1 ++ pub)).
Proof.
  intros Hatv h1 pub release.
  assert (Hstaged : main_shutdown w h
                    = bind (logger Info MsgShuttingDown ;;
                            for_each [StateTask; AppsTask; CommandTask]
                              (fun t => emit (ETaskCancel t)) ;;
                            emit EGather)
                        (fun _ =>
                           bind (mqtt_publish w (Config.topic_availability (config w))
                                   "offline" true)
                             (fun _ => release)) h).
  { unfold main_shutdown. rewrite Hatv. unfold release. cbn [for_each]. monad_eq. }
  rewrite Hstaged.
  rewrite (bind_ret _ _ h shutdown_prefix tt eq_refl).
  fold h1. unfold emitted at 1, outcome at 1.
  rewrite (bind_ret _ _ h1 pub tt
             (returns_unit _ h1 (mqtt_publish_returns w _ _ _))).
  reflexivity.
Qed.

(** C9, the claim as stated fails: with the broker connection lost, the
    shutdown runs to its end and returns 0, yet nothing is published: the
    offline publish is skipped with a warning. *)
Lemma shutdown_skips_offline_when_disconnected :
  main_shutdown Demo.world_offline []
  = (shutdown_prefix
       ++ [ELog Warning MsgNotConnected]
       ++ EDev AtvClose :: shutdown_after_close, Ret 0)
  /\ publishes (emitted (main_shutdown Demo.world_offline) []) = [].
Proof. split; reflexivity. Qed.

(** C9, amended: after the shutdown signal, with the device session of a
    started bridge, [main] cancels the three tasks and awaits them, then
    calls [mqtt_publish] with "offline" for the availability topic,
    retained, then closes the device session, then stops and disconnects
    the bus client, in this order and no other: what it does is always a
    prefix of this sequence that reaches the close, and the whole of it
    when [main] returns 0, which it does when neither the close nor the
    two bus calls raise.  The offline message itself is sent when the bus
    client is connected; when it is not, the publish is skipped with a
    warning. *)
Theorem shutdown_order (w : World) (d : Device) (h : list Event) :
  atv w = Some d ->
  let h1 := h ++ shutdown_prefix in
  let offline :=
    Publish (Config.topic_availability (config w)) "offline"
      (Config.mqtt_qos (config w)) true in
  let pub :=
    if bus_connected w h1 then
      [ EBus offline;
        match env_bus_raises w h1 offline with
        | None => ELog Debug (MsgPublished (Config.topic_availability (config w)) "offline")
        | Some e => ELog Error (MsgPublishError e)
        end ]
    else [ELog Warning MsgNotConnected] in
  let t := emitted (main_shutdown w) h in
  (exists done rest,
     t = shutdown_prefix ++ pub ++ EDev AtvClose :: done
     /\ done ++ rest = shutdown_after_close)
  /\ (outcome (main_shutdown w) h = Ret 0 ->
      t = shutdown_prefix ++ pub ++ EDev AtvClose :: shutdown_after_close)
  /\ ((forall h', env_device_raises w h' AtvClose = None) ->
      (forall h' c, env_bus_raises w h' c = None) ->
      main_shutdown w h
      = (shutdown_prefix ++ pub ++ EDev AtvClose :: shutdown_after_close, Ret 0)).
Proof.
  intros Hatv h1 offline pub t.
  pose proof (main_shutdown_run w d h Hatv) as Hrun. cbv zeta in Hrun.
  fold h1 in Hrun.
  assert (Hpub : emitted (mqtt_publish w (Config.topic_availability (config w))
                            "offline" true) h1 = pub).
  { unfold emitted. rewrite mqtt_publish_run. reflexivity. }
  rewrite Hpub in Hrun. unfold emitted at 1, outcome in Hrun.
  rewrite release_run in Hrun.
  subst t. unfold emitted, outcome. rewrite Hrun. clear Hrun Hpub.
  set (h2 := h1 ++ pub).
  split; [| split].
  - destruct (env_device_raises w h2 AtvClose).
    { exists [], shutdown_after_close. split; reflexivity. }
    destruct (env_bus_raises w _ LoopStop).
    { exists [ELog Info MsgDeviceClosed; EBus LoopStop],
        [EBus Disconnect; ELog Info MsgBusDisconnected; ELog Info MsgShutdownComplete].
      split; reflexivity. }
    destruct (env_bus_raises w _ Disconnect).
    { exists [ELog Info MsgDeviceClosed; EBus LoopStop; EBus Disconnect],
        [ELog Info MsgBusDisconnected; ELog Info MsgShutdownComplete].
      split; reflexivity. }
    exists shutdown_after_close, []. split; reflexivity.
  - destruct (env_device_raises w h2 AtvClose); [discriminate |].
    destruct (env_bus_raises w _ LoopStop); [discriminate |].
    destruct (env_bus_raises w _ Disconnect); [discriminate |].
    reflexivity.
  - intros Hdev Hbus. rewrite Hdev, !Hbus. reflexivity.
Qed.

Lemma shutdown_order_witness :
  main_shutdown Demo.world []
  = ([ ELog Info MsgShuttingDown;
       ETaskCancel StateTask; ETaskCancel AppsTask; ETaskCancel CommandTask;
       EGather;
       EBus (Publish "appletv/availability" "offline" 1 true);
       ELog Debug (MsgPublished "appletv/availability" "offline");
       EDev AtvClose;
       ELog Info MsgDeviceClosed;
       EBus LoopStop; EBus Disconnect;
       ELog Info MsgBusDisconnected; ELog Info MsgShutdownComplete ], Ret 0).
Proof.
  exact (proj2 (proj2 (shutdown_order Demo.world Demo.device [] eq_refl))
           (fun _ => eq_refl) (fun _ _ => eq_refl)).
Defined.

(* ===================================================================== *)
(** * Beyond the claims: the snapshot and the app list *)
(* ===================================================================== *)

Lemma last_segment_from_no_dot (acc s : string) :
  has_dot s = false -> last_segment_from acc s = acc.
Proof.
  induction s as [| c s IH]; simpl; [reflexivity |].
  destruct (c =? ".")%char; [discriminate | exact IH].
Qed.

Lemma last_segment_from_dot (acc acc' s : string) :
  has_dot s = true -> last_segment_from acc s = last_segment_from acc' s.
Proof.
  induction s as [| c s IH]; simpl; [discriminate |].
  destruct (c =? ".")%char; [reflexivity | exact IH].
Qed.

Lemma last_segment_from_clean (s acc : string) :
  has_dot acc = false -> has_dot (last_segment_from acc s) = false.
Proof.
  revert acc. induction s as [| c s IH]; intros acc Hacc; simpl; [exact Hacc |].
  destruct (c =? ".")%char; [| apply IH; exact Hacc].
  destruct (has_dot s) eqn:Hs.
  - rewrite (last_segment_from_dot s "" s Hs). apply IH. reflexivity.
  - rewrite (last_segment_from_no_dot s s Hs). exact Hs.
Qed.

Lemma last_segment_from_suffix (s acc : string) :
  has_dot s = true -> exists pre, s = (pre ++ last_segment_from acc s)%string.
Proof.
  revert acc. induction s as [| c s IH]; intros acc Hs; simpl in *; [discriminate |].
  destruct (c =? ".")%char eqn:Hc.
  - destruct (has_dot s) eqn:Hd.
    + destruct (IH s eq_refl) as [pre Hpre].
      exists (String c pre). simpl. rewrite <- Hpre. reflexivity.
    + exists (String c EmptyString). simpl.
      rewrite (last_segment_from_no_dot s s Hd). reflexivity.
  - destruct (IH acc Hs) as [pre Hpre].
    exists (String c pre). simpl. rewrite <- Hpre. reflexivity.
Qed.

Lemma last_segment_from_member (cls member acc : string) :
  has_dot member = false ->
  last_segment_from acc (cls ++ String "." member)%string = member.
Proof.
  intros Hm. revert acc. induction cls as [| c cls IH]; intros acc; simpl.
  - apply last_segment_from_no_dot. exact Hm.
  - destruct (c =? ".")%char; apply IH.
Qed.

(** X1: what [str(x).split('.')[-1]] keeps of a string never contains a
    dot and is the end of the string; a string without a dot is kept
    whole, and of "Class.Member" the member is kept. *)
Theorem last_segment_is_the_member (s : string) :
  has_dot (last_segment s) = false
  /\ (exists pre, s = (pre ++ last_segment s)%string)
  /\ (has_dot s = false -> last_segment s = s)
  /\ (forall cls member,
        has_dot member = false ->
        last_segment (cls ++ String "." member)%string = member).
Proof.
  unfold last_segment. split; [| split; [| split]].
  - destruct (has_dot s) eqn:Hs.
    + rewrite (last_segment_from_dot s "" s Hs).
      apply last_segment_from_clean. reflexivity.
    + rewrite (last_segment_from_no_dot s s Hs). exact Hs.
  - destruct (has_dot s) eqn:Hs.
    + apply last_segment_from_suffix. exact Hs.
    + exists EmptyString. rewrite (last_segment_from_no_dot s s Hs). reflexivity.
  - apply last_segment_from_no_dot.
  - intros cls member Hm. apply last_segment_from_member. exact Hm.
Qed.

(** Runs [get_state] by cases on what the device answers. *)
Ltac run_get_state :=
  unfold get_state, get_state_failed, try_except, bind, dev_read, logger, emit, ret;
  repeat match goal with
         | |- context [atv ?w] => destruct (atv w) as [?d |] eqn:?
         | |- context [env_playing ?w ?h] => destruct (env_playing w h) eqn:?
         | |- context [env_app ?w ?h] => destruct (env_app w h) eqn:?
         | |- context [has_power ?d] => destruct (has_power d) eqn:?
         | |- context [env_power_state ?w ?h] => destruct (env_power_state w h) eqn:?
         end.

(** X2: [get_state] never raises, whatever the device does, and the dict
    it returns always has the same thirteen keys in the same order. *)
Theorem get_state_keeps_its_keys (w : World) (h : list Event) :
  exists t state,
    get_state w h = (t, Ret state)
    /\ map fst state = map fst default_state.
Proof.
  run_get_state;
    repeat match goal with
           | o : option App |- _ => destruct o
           end;
    eexists; eexists; split; reflexivity.
Qed.

(** X3: when [atv.metadata.playing()] answers, the snapshot carries every
    field of the answer under its key, whatever happens to the reads of
    the app and of the power state that follow: the four enumeration
    fields as the member name or null, the six others unchanged. *)
Theorem get_state_reports_playing
  (w : World) (d : Device) (h : list Event) (p : Playing) :
  atv w = Some d ->
  env_playing w h = inr p ->
  exists t state,
    get_state w h = (t, Ret state)
    /\ dict_lookup "media_type" state = Some (enum_field (media_type p))
    /\ dict_lookup "device_state" state = Some (enum_field (device_state p))
    /\ dict_lookup "title" state = Some (title p)
    /\ dict_lookup "artist" state = Some (artist p)
    /\ dict_lookup "album" state = Some (album p)
    /\ dict_lookup "genre" state = Some (genre p)
    /\ dict_lookup "position" state = Some (position p)
    /\ dict_lookup "total_time" state = Some (total_time p)
    /\ dict_lookup "repeat" state = Some (enum_field (repeat p))
    /\ dict_lookup "shuffle" state = Some (enum_field (shuffle p)).
Proof.
  intros Hatv Hplaying.
  unfold get_state. rewrite Hatv.
  unfold get_state_failed, try_except, bind, dev_read, logger, emit, ret.
  rewrite Hplaying.
  repeat match goal with
         | |- context [env_app ?w ?h] => destruct (env_app w h) eqn:?
         | |- context [has_power ?d] => destruct (has_power d) eqn:?
         | |- context [env_power_state ?w ?h] => destruct (env_power_state w h) eqn:?
         end;
    repeat match goal with
           | o : option App |- _ => destruct o
           end;
    eexists; eexists; repeat split.
Qed.

Lemma get_state_reports_playing_witness :
  exists t state,
    get_state Demo.world [] = (t, Ret state)
    /\ dict_lookup "title" state = Some (JStr "Big Buck Bunny")
    /\ dict_lookup "device_state" state = Some (JStr "Playing").
Proof.
  destruct (get_state_reports_playing Demo.world Demo.device [] Demo.now_playing
              eq_refl eq_refl)
    as (t & state & Hrun & _ & Hds & Htitle & _).
  exists t, state. repeat split; assumption.
Defined.



(** X5: when the read of the power state raises, [get_state] logs the
    error and still returns the snapshot it has built so far: the playing
    and app fields stay, only the power state is null. *)
Theorem get_state_keeps_snapshot_on_power_failure
  (w : World) (d : Device) (h : list Event) (p : Playing) (e : exn) :
  atv w = Some d ->
  env_playing w h = inr p ->
  has_power d = true ->
  env_power_state w (h ++ [EDev MetadataPlaying; EDev MetadataApp]) = inl e ->
  let app := match env_app w (h ++ [EDev MetadataPlaying]) with
             | inr a => a
             | inl _ => None
             end in
  let state := set_app_fields app (set_playing_fields p default_state) in
  get_state w h
  = ([ EDev MetadataPlaying; EDev MetadataApp; EDev PowerPowerState;
       ELog Error (MsgStateError e); ELog Debug MsgTraceback ], Ret state)
  /\ dict_lookup "power_state" state = Some JNull
  /\ dict_lookup "title" state = Some (title p)
  /\ dict_lookup "device_state" state = Some (enum_field (device_state p)).
Proof.
  intros Hatv Hplaying Hpower Hraise app state.
  split.
  - unfold get_state. rewrite Hatv, Hpower.
    unfold get_state_failed, try_except, bind, dev_read, logger, emit, ret.
    rewrite Hplaying. subst state app.
    destruct (env_app w (h ++ [EDev MetadataPlaying])) as [e' | a];
      cbn [app fst snd]; rewrite <- ?app_assoc; cbn [app];
      rewrite Hraise; reflexivity.
  - subst state app.
    destruct (env_app w (h ++ [EDev MetadataPlaying])) as [e' | [a |]];
      repeat split.
Qed.

Lemma get_state_keeps_snapshot_on_power_failure_witness :
  exists t state,
    get_state Cases.world_power_failing [] = (t, Ret state)
    /\ dict_lookup "power_state" state = Some JNull
    /\ dict_lookup "title" state = Some (JStr "Big Buck Bunny").
Proof.
  destruct (get_state_keeps_snapshot_on_power_failure Cases.world_power_failing
              Demo.device [] Demo.now_playing (Exn "ProtocolError" "no power state")
              eq_refl eq_refl eq_refl eq_refl)
    as (Hrun & Hp & Ht & _).
  eexists. eexists. split; [exact Hrun | split; [exact Hp | exact Ht]].
Defined.

(** X6: [get_apps] never raises.  It calls the device only with a session
    that has the apps interface; it returns the apps of the device in
    their order, each as an object with the two keys "name" and "id", and
    the empty list when there is nothing to ask or when the call raises. *)
Theorem get_apps_fail_soft (w : World) (h : list Event) :
  exists t apps,
    get_apps w h = (t, Ret apps)
    /\ (existsb is_dev_call t = true ->
        exists d, atv w = Some d /\ has_apps d = true)
    /\ (forall d l, atv w = Some d -> has_apps d = true ->
                    env_app_list w h = inr l -> apps = map app_entry l)
    /\ (forall e, env_app_list w h = inl e -> apps = [])
    /\ (forall d, atv w = Some d -> has_apps d = false -> t = [] /\ apps = [])
    /\ (atv w = None -> t = [] /\ apps = []).
Proof.
  unfold get_apps, try_except, bind, dev_read, logger, emit, ret.
  destruct (atv w) as [d |] eqn:Hatv.
  - destruct (has_apps d) eqn:Happs; cbn [negb].
    + destruct (env_app_list w h) as [e | l] eqn:Hl;
        eexists; eexists; (split; [reflexivity |]);
        repeat split; intros; try congruence; eauto.
    + eexists; eexists; (split; [reflexivity |]).
      repeat split; intros; try congruence; try discriminate.
  - eexists; eexists; (split; [reflexivity |]).
    repeat split; intros; try congruence; try discriminate.
Qed.

(* ===================================================================== *)
(** * Beyond the claims: what the bridge never does *)
(* ===================================================================== *)

Lemma emits_bind_pure {A B : Type} (P : Event -> Prop) (a : A) (k : A -> M B) :
  emits P (k a) -> emits P (bind (ret a) k).
Proof.
  intros Hk h. unfold emitted. rewrite bind_pure. apply Hk.
Qed.

Lemma emits_bind_raise {A B : Type} (P : Event -> Prop) (e : exn) (k : A -> M B) :
  emits P (bind (raise e) k).
Proof. intros h. constructor. Qed.

(** As [emits], keeping what each test has found. *)
Ltac emits_cases :=
  repeat first
    [ solve [eauto]
    | progress intros
    | apply emits_ret
    | apply emits_raise
    | apply emits_out_of_fuel
    | apply emits_ask
    | apply emits_lift
    | apply emits_bind_pure
    | apply emits_bind_raise
    | apply emits_bind
    | apply emits_try
    | apply emits_for_each
    | apply emits_emit
    | apply emits_bus
    | apply emits_dev
    | apply emits_dev_read
    | match goal with
      | |- emits _ (if ?b then _ else _) => destruct b eqn:?
      | |- emits _ (match ?x with _ => _ end) => destruct x eqn:?
      | |- emits _ (let (_, _) := ?x in _) => destruct x
      end ].

(** Proves that one event is allowed, from what the tests have found. *)
Ltac allowed :=
  cbn [bridge_rule]; unfold dev_rule, bus_rule, sleep_rule;
  repeat match goal with
         | H : atv _ = _ |- _ => rewrite H
         | H : (_ && _)%bool = true |- _ => apply andb_prop in H; destruct H
         | H : negb _ = false |- _ => apply negb_false_iff in H
         end;
  try solve [intuition eauto].

Lemma execute_command_fuel_allowed
  (w : World) (fuel : nat) (action : json) (kwargs : dict) :
  emits (bridge_rule w) (execute_command_fuel w fuel action kwargs).
Proof.
  revert action kwargs. induction fuel as [| fuel IH]; intros action kwargs.
  - apply emits_out_of_fuel.
  - cbn [execute_command_fuel]. unfold logger, sleep.
    emits_cases; allowed.
Qed.

Lemma get_state_allowed (w : World) : emits (bridge_rule w) (get_state w).
Proof. unfold get_state, get_state_failed, logger. emits_cases; allowed. Qed.

Lemma get_apps_allowed (w : World) : emits (bridge_rule w) (get_apps w).
Proof. unfold get_apps, logger. emits_cases; allowed. Qed.

Lemma mqtt_publish_allowed (w : World) (topic payload : string) (retain : bool) :
  topic = Config.topic_availability (config w)
  \/ topic = Config.topic_apps (config w)
  \/ topic = Config.topic_state (config w) ->
  emits (bridge_rule w) (mqtt_publish w topic payload retain).
Proof.
  intros Htopic. apply mqtt_publish_emits.
  - simpl. auto.
  - intros; exact I.
Qed.

Lemma setup_mqtt_allowed (w : World) : emits (bridge_rule w) (setup_mqtt w).
Proof.
  unfold setup_mqtt.
  destruct (Config.appletv_id (config w)) as [s |] eqn:Hid; cbn [lift].
  - apply emits_bind_pure. emits_cases; allowed.
  - apply emits_bind_raise.
Qed.

Lemma on_mqtt_connect_allowed (w : World) (reason_code : Z) :
  emits (bridge_rule w) (on_mqtt_connect w reason_code).
Proof. unfold on_mqtt_connect, logger. emits_cases; allowed. Qed.

Lemma dispatch_allowed (w : World) (cmd : InboundMessage) :
  emits (bridge_rule w) (dispatch w cmd).
Proof.
  pose proof (execute_command_fuel_allowed w 2) as Hexec.
  pose proof (get_state_allowed w) as Hstate.
  pose proof (get_apps_allowed w) as Happs.
  pose proof (fun payload retain =>
                mqtt_publish_allowed w _ payload retain (or_intror (or_intror eq_refl)))
    as Hpub_state.
  pose proof (fun payload retain =>
                mqtt_publish_allowed w _ payload retain (or_intror (or_introl eq_refl)))
    as Hpub_apps.
  unfold dispatch, execute_command, logger. emits_cases; allowed.
Qed.

Lemma perform_allowed (w : World) (a : Activity) : emits (bridge_rule w) (perform w a).
Proof.
  pose proof (get_state_allowed w) as Hstate.
  pose proof (get_apps_allowed w) as Happs.
  pose proof (dispatch_allowed w) as Hdispatch.
  pose proof (fun payload retain =>
                mqtt_publish_allowed w _ payload retain (or_intror (or_intror eq_refl)))
    as Hpub_state.
  pose proof (fun payload retain =>
                mqtt_publish_allowed w _ payload retain (or_intror (or_introl eq_refl)))
    as Hpub_apps.
  pose proof (fun payload retain =>
                mqtt_publish_allowed w _ payload retain (or_introl eq_refl))
    as Hpub_availability.
  destruct a; cbn [perform].
  - apply emits_bind; [apply setup_mqtt_allowed | intros; apply emits_ret].
  - apply on_mqtt_connect_allowed.
  - unfold task_state_update, logger. apply emits_bind; [apply emits_emit; exact I |].
    intros _. apply while_running_emits.
    unfold state_update_round, logger, sleep. emits_cases; allowed.
  - unfold task_apps_update, logger. apply emits_bind; [apply emits_emit; exact I |].
    intros _. apply while_running_emits.
    unfold apps_update_round, logger, sleep. emits_cases; allowed.
  - unfold task_command_handler, logger. apply emits_bind; [apply emits_emit; exact I |].
    intros _. apply while_running_emits.
    unfold command_round, logger. emits_cases; allowed.
  - apply emits_bind; [| intros; apply emits_ret].
    unfold main_device_failed, logger. emits_cases; allowed.
  - apply emits_bind; [| intros; apply emits_ret].
    unfold main_shutdown, logger. emits_cases; allowed.
Qed.

Lemma reachable_allowed (w : World) (h : list Event) :
  reachable w h -> Forall (bridge_rule w) h.
Proof.
  induction 1 as [| h a _ IH].
  - constructor.
  - apply Forall_app. split; [exact IH | apply perform_allowed].
Qed.

(** X7: in every history of the bridge, a device call is made only while
    a session exists; a call into the power or apps interface only if the
    device has that interface, and an app launch or a URL playback only
    with an interface for it and with a parameter that counts as true. *)
Theorem device_calls_are_gated (w : World) (h : list Event) (c : DevCall) :
  reachable w h ->
  In (EDev c) h ->
  exists d,
    atv w = Some d
    /\ (c = PowerTurnOn \/ c = PowerTurnOff \/ c = PowerPowerState ->
        has_power d = true)
    /\ (c = AppsAppList -> has_apps d = true)
    /\ (forall app_id, c = AppsLaunchApp app_id ->
                       truthy app_id = true /\ has_apps d = true)
    /\ (forall url, c = StreamPlayUrl url ->
                    truthy url = true /\ has_stream d = true).
Proof.
  intros Hreach Hin.
  pose proof (reachable_allowed w h Hreach) as Hall.
  rewrite Forall_forall in Hall. specialize (Hall _ Hin).
  cbn [bridge_rule] in Hall. unfold dev_rule in Hall.
  destruct (atv w) as [d |]; [| destruct Hall].
  exists d. split; [reflexivity |].
  repeat split; intros; subst; try exact Hall; try apply Hall;
    repeat match goal with
           | H : _ \/ _ |- _ => destruct H as [H | H]; subst
           end; exact Hall.
Qed.

Lemma device_calls_are_gated_witness :
  exists d, atv Demo.world = Some d /\ has_power d = true.
Proof.
  destruct (device_calls_are_gated Demo.world
              ([] ++ emitted (perform Demo.world (ActStateTask 1)) [])
              PowerPowerState
              (reach_step Demo.world [] (ActStateTask 1) (reach_start Demo.world)))
    as (d & Hd & Hpower & _).
  - vm_compute. tauto.
  - exists d. split; [exact Hd | apply Hpower; auto].
Defined.

(** X8: in every history of the bridge, the only topics subscribed to are
    the set topic and the get topic, and every subscription, publish and
    last will carries the configured quality of service. *)
Theorem bus_calls_use_the_configuration
  (w : World) (h : list Event) (c : BusCall) :
  reachable w h ->
  In (EBus c) h ->
  match c with
  | Subscribe topic qos =>
      (topic = Config.topic_set (config w) \/ topic = Config.topic_get (config w))
      /\ qos = Config.mqtt_qos (config w)
  | Publish _ _ qos _ => qos = Config.mqtt_qos (config w)
  | WillSet topic payload qos retain =>
      topic = Config.topic_availability (config w) /\ payload = "offline"
      /\ qos = Config.mqtt_qos (config w) /\ retain = true
  | _ => True
  end.
Proof.
  intros Hreach Hin.
  pose proof (reachable_allowed w h Hreach) as Hall.
  rewrite Forall_forall in Hall. specialize (Hall _ Hin).
  cbn [bridge_rule] in Hall. unfold bus_rule in Hall.
  destruct c; try exact I; try exact Hall. apply Hall.
Qed.

Lemma bus_calls_use_the_configuration_witness :
  ("appletv/set" = Config.topic_set (config Demo.world)
   \/ "appletv/set" = Config.topic_get (config Demo.world))
  /\ 1 = Config.mqtt_qos (config Demo.world).
Proof.
  apply (bus_calls_use_the_configuration Demo.world
           ([] ++ emitted (perform Demo.world (ActOnConnect 0)) [])
           (Subscribe "appletv/set" 1)
           (reach_step Demo.world [] (ActOnConnect 0) (reach_start Demo.world))).
  vm_compute. tauto.
Defined.

(** X9: the bridge never publishes to a topic it listens on: in every
    history, no publish goes to the set topic or to the get topic. *)
Theorem never_publishes_to_command_topics
  (w : World) (h : list Event) (topic payload : string) (qos : Z) (retain : bool) :
  reachable w h ->
  In (EBus (Publish topic payload qos retain)) h ->
  topic <> Config.topic_set (config w) /\ topic <> Config.topic_get (config w).
Proof.
  intros Hreach Hin.
  pose proof (reachable_allowed w h Hreach) as Hall.
  rewrite Forall_forall in Hall. specialize (Hall _ Hin).
  cbn [bridge_rule] in Hall. unfold bus_rule in Hall.
  destruct Hall as [_ Htopic].
  pose proof (topics_distinct (config w)) as Hnd.
  inversion_clear Hnd as [| ? ? Hav Hnd1].
  inversion_clear Hnd1 as [| ? ? Hst Hnd2].
  inversion_clear Hnd2 as [| ? ? Hap _].
  simpl in Hav, Hst, Hap.
  destruct Htopic as [-> | [-> | ->]]; split; intros Heq;
    rewrite ?Heq in *; tauto.
Qed.

Lemma never_publishes_to_command_topics_witness :
  "appletv/availability" <> Config.topic_set (config Demo.world)
  /\ "appletv/availability" <> Config.topic_get (config Demo.world).
Proof.
  apply (never_publishes_to_command_topics Demo.world
           ([] ++ emitted (perform Demo.world (ActOnConnect 0)) [])
           "appletv/availability" "online" 1 true
           (reach_step Demo.world [] (ActOnConnect 0) (reach_start Demo.world))).
  vm_compute. tauto.
Defined.

Lemma remove_colons_clean (s : string) : has_colon (remove_colons s) = false.
Proof.
  induction s as [| c s IH]; simpl; [reflexivity |].
  destruct (c =? ":")%char eqn:Hc; [exact IH |].
  simpl. rewrite Hc. exact IH.
Qed.

Lemma remove_colons_id (s : string) : has_colon s = false -> remove_colons s = s.
Proof.
  induction s as [| c s IH]; simpl; [reflexivity |].
  destruct (c =? ":")%char; [discriminate |].
  intros H. rewrite (IH H). reflexivity.
Qed.

(** X10: the client id the bridge gives the broker never contains a colon,
    and it is the device identifier behind the fixed prefix when the
    identifier has none; the broker credentials are set only when both
    the user and the password are non-empty. *)
Theorem client_identity (w : World) (h : list Event) :
  reachable w h ->
  (forall client_id,
     In (EBus (NewClient client_id)) h ->
     has_colon client_id = false
     /\ exists s, Config.appletv_id (config w) = Some s
                  /\ (has_colon s = false ->
                      client_id = ("appletv2mqtt_" ++ s)%string))
  /\ (forall user password,
        In (EBus (UsernamePwSet user password)) h ->
        exists u p, user = Some u /\ password = Some p /\ u <> "" /\ p <> "").
Proof.
  intros Hreach.
  pose proof (reachable_allowed w h Hreach) as Hall.
  rewrite Forall_forall in Hall.
  split.
  - intros client_id Hin. specialize (Hall _ Hin).
    cbn [bridge_rule] in Hall. unfold bus_rule in Hall.
    destruct Hall as (s & Hs & ->). split.
    + simpl. apply remove_colons_clean.
    + exists s. split; [exact Hs |].
      intros Hclean. rewrite (remove_colons_id s Hclean). reflexivity.
  - intros user password Hin. specialize (Hall _ Hin).
    cbn [bridge_rule] in Hall. unfold bus_rule in Hall.
    destruct Hall as (_ & _ & Hu & Hp).
    destruct user as [u |]; [| discriminate].
    destruct password as [p |]; [| discriminate].
    exists u, p. repeat split.
    + intros ->. discriminate.
    + intros ->. discriminate.
Qed.

Lemma client_identity_witness :
  has_colon "appletv2mqtt_AABBCCDDEEFF" = false.
Proof.
  apply (proj1 (client_identity Demo.world
                  ([] ++ emitted (perform Demo.world ActSetupMqtt) [])
                  (reach_step Demo.world [] ActSetupMqtt (reach_start Demo.world)))
           "appletv2mqtt_AABBCCDDEEFF").
  vm_compute. tauto.
Defined.

(* ===================================================================== *)
(** * Beyond the claims: the task loops *)
(* ===================================================================== *)

Lemma bind_ask {A B : Type} (f : list Event -> A) (k : A -> M B) (h : list Event) :
  bind (ask f) k h = k (f h) h.
Proof.
  rewrite (bind_ret (ask f) k h [] (f h) eq_refl).
  rewrite app_nil_r. simpl. symmetry. apply run_eta.
Qed.

Lemma dispatch_halts (w : World) (cmd : InboundMessage) : halts (dispatch w cmd).
Proof.
  pose proof (execute_command_returns w) as Hexec.
  pose proof (get_state_returns w) as Hstate.
  pose proof (get_apps_returns w) as Happs.
  pose proof (mqtt_publish_returns w) as Hpub.
  unfold dispatch.
  destruct (json_loads w (msg_payload cmd)) as [e | data].
  - destruct (is_decode_error e); auto with ends.
  - repeat first
      [ apply halts_if
      | apply halts_bind
      | apply returns_halts; solve [auto with ends]
      | solve [auto with ends]
      | progress intros
      | match goal with
        | |- halts (let (_, _) := ?x in _) => destruct x
        | |- halts (bind _ _) => apply returns_halts; apply returns_bind
        | |- returns (if _ then _ else _) => apply returns_if
        | |- returns (bind _ _) => apply returns_bind
        end ].
Qed.

Lemma state_update_round_returns (w : World) : returns (state_update_round w).
Proof.
  pose proof (get_state_returns w) as Hstate.
  pose proof (mqtt_publish_returns w) as Hpub.
  unfold state_update_round.
  apply returns_bind; [| intros; apply returns_sleep].
  apply returns_try.
  - apply returns_halts, returns_bind; auto.
  - intros e. apply returns_bind; auto with ends.
Qed.

Lemma apps_update_round_returns (w : World) : returns (apps_update_round w).
Proof.
  pose proof (get_apps_returns w) as Happs.
  pose proof (mqtt_publish_returns w) as Hpub.
  unfold apps_update_round.
  apply returns_bind; [| intros; apply returns_sleep].
  apply returns_try.
  - apply returns_halts, returns_bind; auto.
  - intros e. apply returns_bind; auto with ends.
Qed.

Lemma command_round_returns (w : World) : returns (command_round w).
Proof.
  unfold command_round. apply returns_try.
  - apply halts_bind; [auto with ends |]. intros r.
    apply halts_bind; [auto with ends |]. intros _.
    destruct r as [cmd |]; [apply dispatch_halts | auto with ends].
  - intros e. apply returns_bind; auto with ends.
Qed.

(** X11: no round of a task loop raises: whatever the device, the broker
    and the payload of a message do, a round of the state loop, of the
    apps loop and of the command loop returns normally. *)
Theorem task_rounds_never_raise (w : World) (h : list Event) :
  outcome (state_update_round w) h = Ret tt
  /\ outcome (apps_update_round w) h = Ret tt
  /\ outcome (command_round w) h = Ret tt.
Proof.
  unfold outcome.
  rewrite (returns_unit _ h (state_update_round_returns w)).
  rewrite (returns_unit _ h (apps_update_round_returns w)).
  rewrite (returns_unit _ h (command_round_returns w)).
  repeat split.
Qed.




Lemma try_returns {A : Type} (m : M A) (handler : exn -> M A) (h : list Event) :
  returns m -> try_except m handler h = m h.
Proof.
  intros Hm. destruct (Hm h) as [a Ha].
  pose proof (run_eta m h) as E. rewrite Ha in E.
  rewrite (try_ret m handler h _ a E). symmetry. exact E.
Qed.

Lemma artifact_round_run (w : World) (a : Artifact) (h : list Event) :
  artifact_round w a h
  = (emitted (fetch_and_publish w a) h
       ++ [ESleep (1000 * artifact_interval (config w) a)], Ret tt).
Proof.
  assert (Hfp : fetch_and_publish w a h = (emitted (fetch_and_publish w a) h, Ret tt))
    by apply returns_unit, fetch_and_publish_returns.
  destruct a; cbn [artifact_round artifact_interval].
  - unfold state_update_round.
    erewrite bind_ret; [reflexivity |].
    rewrite try_returns.
    + rewrite <- Hfp. unfold fetch_and_publish, fetch. monad_eq.
    + apply returns_bind; [apply get_state_returns | intros; apply mqtt_publish_returns].
  - unfold apps_update_round.
    erewrite bind_ret; [reflexivity |].
    rewrite try_returns.
    + rewrite <- Hfp. unfold fetch_and_publish, fetch. monad_eq.
    + apply returns_bind; [apply get_apps_returns | intros; apply mqtt_publish_returns].
Qed.

(** X13: a periodic round and a get request do the same work: at the same
    history, the round of an artifact adds the events of one fetch and
    publish of that artifact followed by the sleep of its interval, and a
    get request for that artifact adds the same events followed by its
    log record. *)
Theorem periodic_round_matches_get_request
  (w : World) (a : Artifact) (payload : string) (h : list Event) :
  json_loads w payload = inr (JObj [("type", JStr (artifact_name a))]) ->
  let work := emitted (fetch_and_publish w a) h in
  artifact_round w a h
  = (work ++ [ESleep (1000 * artifact_interval (config w) a)], Ret tt)
  /\ dispatch w {| msg_topic := Config.topic_get (config w); msg_payload := payload |} h
     = (work ++ [ELog Info (MsgForcedUpdate (JStr (artifact_name a)))], Ret tt).
Proof.
  intros Hloads work. split; [apply artifact_round_run |].
  rewrite (dispatch_get w payload _ h Hloads).
  unfold spec_get_request.
  assert (Hreq : requested (dict_get "type" (JStr "all")
                              [("type", JStr (artifact_name a))]) = [a])
    by (destruct a; reflexivity).
  rewrite Hreq. cbn [for_each].
  assert (Hfp : fetch_and_publish w a h = (work, Ret tt))
    by apply returns_unit, fetch_and_publish_returns.
  erewrite bind_ret.
  2: { erewrite bind_ret by exact Hfp. unfold emitted, outcome, ret. cbn [fst snd].
       rewrite app_nil_r. reflexivity. }
  destruct a; reflexivity.
Qed.

Lemma periodic_round_matches_get_request_witness :
  artifact_round Asking.world StateArtifact []
  = (emitted (fetch_and_publish Asking.world StateArtifact) []
       ++ [ESleep 5000], Ret tt).
Proof.
  exact (proj1 (periodic_round_matches_get_request Asking.world
                  StateArtifact "" [] eq_refl)).
Defined.

(* ===================================================================== *)
(** * Beyond the claims: commands at the edges *)
(* ===================================================================== *)

(** X14: a message the dispatcher cannot use is dropped and the round
    returns: a payload that is no JSON leaves one warning; a payload that
    decodes to something other than an object, on the set or the get
    topic, leaves one error record; a message on any other topic leaves
    nothing.  In none of these cases is the device or the bus called. *)
Theorem malformed_command_is_dropped
  (w : World) (h : list Event) (cmd : InboundMessage) :
  env_queue_get w h = Some cmd ->
  let got := EQueueGet (Some cmd) in
  (forall e,
     json_loads w (msg_payload cmd) = inl e ->
     command_round w h
     = (got :: (if is_decode_error e
                then [ELog Warning (MsgInvalidJson (msg_payload cmd))]
                else [ELog Error (MsgHandlerError e); ELog Debug MsgTraceback]),
        Ret tt))
  /\ (forall data,
        json_loads w (msg_payload cmd) = inr data ->
        is_object data = false ->
        msg_topic cmd = Config.topic_set (config w)
        \/ msg_topic cmd = Config.topic_get (config w) ->
        exists e,
          command_round w h
          = ([got; ELog Error (MsgHandlerError e); ELog Debug MsgTraceback], Ret tt))
  /\ (forall data,
        json_loads w (msg_payload cmd) = inr data ->
        msg_topic cmd <> Config.topic_set (config w) ->
        msg_topic cmd <> Config.topic_get (config w) ->
        command_round w h = ([got], Ret tt)).
Proof.
  intros Hq got.
  assert (Hround : forall t r,
            dispatch w cmd (h ++ [got]) = (t, r) ->
            command_round w h
            = match r with
              | Ret _ => (got :: t, Ret tt)
              | Raise e =>
                  (got :: t ++ [ELog Error (MsgHandlerError e); ELog Debug MsgTraceback],
                   Ret tt)
              | OutOfFuel => (got :: t, OutOfFuel)
              end).
  { intros t r Hd. unfold command_round, try_except.
    rewrite bind_ask, Hq.
    unfold bind at 1. unfold emit at 1. cbn [fst snd]. fold got.
    rewrite Hd. destruct r as [[] | e |]; reflexivity. }
  split; [| split].
  - intros e Hloads.
    rewrite (Hround (if is_decode_error e
                     then [ELog Warning (MsgInvalidJson (msg_payload cmd))] else [])
               (if is_decode_error e then Ret tt else Raise e)).
    + destruct (is_decode_error e); reflexivity.
    + unfold dispatch. rewrite Hloads. destruct (is_decode_error e); reflexivity.
  - intros data Hloads Hobj Htopic.
    assert (Hraise : exists e, dispatch w cmd (h ++ [got]) = ([], Raise e)).
    { unfold dispatch. rewrite Hloads.
      destruct Htopic as [-> | ->].
      - rewrite String.eqb_refl.
        destruct data; try discriminate; eexists; reflexivity.
      - rewrite topic_get_is_not_set, String.eqb_refl.
        destruct data; try discriminate; eexists; reflexivity. }
    destruct Hraise as [e He]. exists e. rewrite (Hround _ _ He). reflexivity.
  - intros data Hloads Hset Hget.
    rewrite (Hround [] (Ret tt)); [reflexivity |].
    unfold dispatch. rewrite Hloads.
    apply String.eqb_neq in Hset, Hget. rewrite Hset, Hget. reflexivity.
Qed.

Lemma malformed_command_is_dropped_witness :
  command_round Queue.world []
  = ([EQueueGet (Some Queue.garbage); ELog Warning (MsgInvalidJson "up")], Ret tt).
Proof.
  exact (proj1 (malformed_command_is_dropped Queue.world [] Queue.garbage eq_refl)
           (Exn "JSONDecodeError" "Expecting value") eq_refl).
Defined.

(** X15: "launch_app" calls the device exactly when the [app_id] parameter
    counts as true and the device has the apps interface, with that id
    unchanged, and "play_url" likewise with [url] and the stream
    interface; an exception of the call is logged, not raised.  When the
    call is not made, the action is still logged as executed. *)
Theorem launch_needs_its_parameter
  (w : World) (d : Device) (kwargs : dict) (h : list Event) :
  atv w = Some d ->
  let after (action : string) (call : DevCall) (go : bool) :=
    if go then
      EDev call ::
        match env_device_raises w h call with
        | None => [ELog Info (MsgExecuted (JStr action))]
        | Some e => [ELog Error (MsgCommandError (JStr action) e); ELog Debug MsgTraceback]
        end
    else [ELog Info (MsgExecuted (JStr action))] in
  let app_id := dict_get "app_id" JNull kwargs in
  let url := dict_get "url" JNull kwargs in
  execute_command w (JStr "launch_app") kwargs h
  = (after "launch_app" (AppsLaunchApp app_id) (truthy app_id && has_apps d)%bool, Ret tt)
  /\ execute_command w (JStr "play_url") kwargs h
     = (after "play_url" (StreamPlayUrl url) (truthy url && has_stream d)%bool, Ret tt).
Proof.
  intros Hatv after app_id url. subst after.
  unfold execute_command. cbn [execute_command_fuel]. rewrite Hatv.
  cbn [str_eq String.eqb Ascii.eqb Bool.eqb].
  fold app_id url.
  unfold try_except, bind, dev, logger, emit, ret.
  split.
  - destruct (truthy app_id && has_apps d)%bool; [| reflexivity].
    destruct (env_device_raises w h (AppsLaunchApp app_id)); reflexivity.
  - destruct (truthy url && has_stream d)%bool; [| reflexivity].
    destruct (env_device_raises w h (StreamPlayUrl url)); reflexivity.
Qed.

Lemma launch_needs_its_parameter_witness :
  execute_command Demo.world (JStr "launch_app") [("app_id", JStr "")] []
  = ([ELog Info (MsgExecuted (JStr "launch_app"))], Ret tt).
Proof.
  exact (proj1 (launch_needs_its_parameter Demo.world Demo.device
                  [("app_id", JStr "")] [] eq_refl)).
Defined.

(** X16: every action but "launch_app", "play_url" and "multi" ignores the
    parameters it is given: the call does what the action name alone
    does, so "wakeup" makes the call of "turn_on" and "suspend" the call
    of "turn_off". *)
Theorem parameters_are_ignored
  (w : World) (d : Device) (action : json) (kwargs : dict) (h : list Event) :
  atv w = Some d ->
  str_in action ["launch_app"; "play_url"; "multi"] = false ->
  execute_command w action kwargs h = execute_command w action [] h
  /\ execute_command w action kwargs h = (step_events w d action h, Ret tt)
  /\ step_call d (JStr "wakeup") = step_call d (JStr "turn_on")
  /\ step_call d (JStr "suspend") = step_call d (JStr "turn_off").
Proof.
  intros Hatv Hplain.
  assert (Heq : execute_command w action kwargs h = execute_command w action [] h).
  { unfold execute_command. cbn [execute_command_fuel].
    destruct (atv w); [| reflexivity].
    destruct action as [| b | n | f | name | l | o];
      [ reflexivity | reflexivity | reflexivity | reflexivity
      | | reflexivity | reflexivity ].
    unfold str_in in Hplain. cbn [existsb str_eq] in Hplain.
    apply orb_false_elim in Hplain. destruct Hplain as [Hl Hplain].
    apply orb_false_elim in Hplain. destruct Hplain as [Hp Hplain].
    apply orb_false_elim in Hplain. destruct Hplain as [Hm _].
    cbn [str_eq]. rewrite Hl, Hp, Hm. reflexivity. }
  split; [exact Heq |]. split.
  - rewrite Heq. apply bare_step_run. exact Hatv.
  - split; unfold step_call; simpl; destruct (has_power d); reflexivity.
Qed.

Lemma parameters_are_ignored_witness :
  execute_command Demo.world (JStr "suspend") [("app_id", JStr "x")] []
  = ([EDev PowerTurnOff; ELog Info (MsgExecuted (JStr "suspend"))], Ret tt).
Proof.
  exact (proj1 (proj2 (parameters_are_ignored Demo.world Demo.device
                         (JStr "suspend") [("app_id", JStr "x")] []
                         eq_refl eq_refl))).
Defined.

Lemma execute_command_multi_iter
  (w : World) (d : Device) (kwargs : dict) (h : list Event) :
  atv w = Some d ->
  execute_command w (JStr "multi") kwargs h
  = match py_iter (dict_get "commands" (JArr []) kwargs) with
    | inr cs => (multi_steps w cs h ++ [ELog Info (MsgExecuted (JStr "multi"))], Ret tt)
    | inl e =>
        ([ELog Error (MsgCommandError (JStr "multi") e); ELog Debug MsgTraceback], Ret tt)
    end.
Proof.
  intros Hatv. rewrite execute_command_multi_branch, Hatv.
  destruct (py_iter (dict_get "commands" (JArr []) kwargs)) as [e | cs]; cbn [lift].
  - erewrite try_raise.
    2: { apply bind_raise. apply bind_raise. reflexivity. }
    reflexivity.
  - apply try_ret.
    erewrite bind_ret.
    2: { rewrite bind_pure. erewrite bind_ret by apply for_each_steps.
         unfold emitted, outcome, ret. cbn [fst snd].
         rewrite app_nil_r. reflexivity. }
    reflexivity.
Qed.

Lemma one_char_is_no_action (c : ascii) (name : string) :
  In name catalogue -> (String c EmptyString =? name)%string = false.
Proof.
  intros Hin. apply String.eqb_neq. intros <-.
  simpl in Hin.
  repeat match goal with
         | H : _ \/ _ |- _ => destruct H as [H | H]; [discriminate H |]
         end.
  exact Hin.
Qed.

Lemma one_char_step (w : World) (d : Device) (c : ascii) (h : list Event) :
  step_events w d (JStr (String c EmptyString)) h
  = [ELog Warning (MsgUnknownAction (JStr (String c EmptyString)))].
Proof.
  assert (Hno : forall name, In name catalogue ->
                             (String c EmptyString =? name)%string = false)
    by apply one_char_is_no_action.
  unfold step_events, step_call, rc_call, power_call, str_in.
  cbn [existsb str_eq catalogue].
  rewrite !Hno by (simpl; tauto).
  destruct (has_power d); reflexivity.
Qed.

(** X17: a [multi] command whose [commands] is no list does what the loop
    over it does: absent, it runs no step; a string runs one step for
    each of its characters, none of which is an action; a number, a
    boolean or null makes the loop raise, which is logged, and no step
    runs.  In each case the call returns normally. *)
Theorem multi_without_a_list
  (w : World) (d : Device) (kwargs : dict) (h : list Event) :
  atv w = Some d ->
  (dict_lookup "commands" kwargs = None ->
   execute_command w (JStr "multi") kwargs h
   = ([ELog Info (MsgExecuted (JStr "multi"))], Ret tt))
  /\ (forall s,
        dict_lookup "commands" kwargs = Some (JStr s) ->
        execute_command w (JStr "multi") kwargs h
        = (multi_steps w (chars s) h ++ [ELog Info (MsgExecuted (JStr "multi"))], Ret tt))
  /\ (forall c h',
        emitted (execute_command w (JStr (String c EmptyString)) []) h'
        = [ELog Warning (MsgUnknownAction (JStr (String c EmptyString)))])
  /\ (forall v,
        dict_lookup "commands" kwargs = Some v ->
        v = JNull \/ (exists b, v = JBool b) \/ (exists n, v = JInt n)
        \/ (exists f, v = JFloat f) ->
        execute_command w (JStr "multi") kwargs h
        = ([ ELog Error (MsgCommandError (JStr "multi")
                           (Exn "TypeError" "object is not iterable"));
             ELog Debug MsgTraceback ], Ret tt)).
Proof.
  intros Hatv.
  pose proof (execute_command_multi_iter w d kwargs h Hatv) as Hrun.
  unfold dict_get in Hrun.
  split; [| split; [| split]].
  - intros Hnone. rewrite Hnone in Hrun. exact Hrun.
  - intros s Hs. rewrite Hs in Hrun. exact Hrun.
  - intros c h'. unfold emitted. rewrite (bare_step_run w d _ h' Hatv).
    apply one_char_step.
  - intros v Hv Hscalar. rewrite Hv in Hrun.
    destruct Hscalar as [-> | [[b ->] | [[n ->] | [f ->]]]]; exact Hrun.
Qed.

Lemma multi_without_a_list_witness :
  execute_command Demo.world (JStr "multi") [("commands", JStr "up")] []
  = ([ ELog Warning (MsgUnknownAction (JStr "u")); ESleep 300;
       ELog Warning (MsgUnknownAction (JStr "p")); ESleep 300;
       ELog Info (MsgExecuted (JStr "multi")) ], Ret tt).
Proof.
  exact (proj1 (proj2 (multi_without_a_list Demo.world Demo.device
                         [("commands", JStr "up")] [] eq_refl))
           "up" eq_refl).
Defined.

(* ===================================================================== *)
(** * Beyond the claims: loading the configuration *)
(* ===================================================================== *)

Lemma required_is_set (env : Env) (var : string) :
  Config.missing env = [] ->
  In var Config.REQUIRED_VARS ->
  exists s, env var = Some s /\ s <> "".
Proof.
  intros Hm Hin.
  destruct (env var) as [s |] eqn:E.
  - exists s. split; [reflexivity |]. intros ->.
    assert (H : In var (Config.missing env)) by (apply missing_iff; auto).
    rewrite Hm in H. destruct H.
  - assert (H : In var (Config.missing env)) by (apply missing_iff; auto).
    rewrite Hm in H. destruct H.
Qed.

(** Reads one numeric key in [_load], once validation has passed. *)
Ltac read_int Hm py_int env key :=
  let s := fresh "s" in
  let Hs := fresh "Hs" in
  let z := fresh "z" in
  let Hz := fresh "Hz" in
  destruct (required_is_set env key Hm) as (s & Hs & _);
  [ simpl; tauto | ];
  rewrite ?Hs;
  destruct (py_int s) as [z |] eqn:Hz.

(** X18: once no required key is missing, [Config()] ends in one of two
    ways.  If [int()] accepts the six numeric values, the configuration
    is loaded, with every text field as the environment has it and every
    number as [int()] reads it.  If it rejects one, the start ends with
    the [ValueError] of that conversion, not with the listing of missing
    keys; the [TypeError] of [int(None)] never occurs. *)
Theorem config_loads_or_raises_value_error
  (py_int : string -> option Z) (env : Env) :
  Config.missing env = [] ->
  (forallb (parses py_int env) numeric_keys = true ->
   exists c,
     Config.__init__ py_int env = Started c
     /\ Config.mqtt_host c = env "MQTT_HOST"
     /\ Config.mqtt_user c = env "MQTT_USER"
     /\ Config.mqtt_password c = env "MQTT_PASSWORD"
     /\ Config.mqtt_base_topic c = env "MQTT_BASE_TOPIC"
     /\ Config.appletv_id c = env "APPLETV_ID"
     /\ Config.appletv_credentials c = env "APPLETV_CREDENTIALS"
     /\ Config.appletv_address c = env "APPLETV_ADDRESS"
     /\ (exists s, env "MQTT_PORT" = Some s /\ py_int s = Some (Config.mqtt_port c))
     /\ (exists s, env "MQTT_QOS" = Some s /\ py_int s = Some (Config.mqtt_qos c))
     /\ (exists s, env "STATE_UPDATE_INTERVAL" = Some s
                   /\ py_int s = Some (Config.state_update_interval c))
     /\ (exists s, env "APPS_UPDATE_INTERVAL" = Some s
                   /\ py_int s = Some (Config.apps_update_interval c))
     /\ (exists s, env "MQTT_RECONNECT_DELAY" = Some s
                   /\ py_int s = Some (Config.mqtt_reconnect_delay c))
     /\ (exists s, env "APPLETV_RECONNECT_DELAY" = Some s
                   /\ py_int s = Some (Config.appletv_reconnect_delay c)))
  /\ (forallb (parses py_int env) numeric_keys = false ->
      Config.__init__ py_int env
      = StartupError (Exn "ValueError" "invalid literal for int()")).
Proof.
  intros Hm.
  assert (Hv : Config._validate env = Started tt).
  { destruct (validate_cases env) as [[_ Hv] | [Hne _]]; [exact Hv | contradiction]. }
  unfold Config.__init__. rewrite Hv.
  unfold Config._load, Config.with_int, Config.int_getenv.
  unfold numeric_keys, parses. cbn [forallb].
  read_int Hm py_int env "MQTT_PORT";
    [| split; [discriminate | reflexivity]].
  read_int Hm py_int env "MQTT_QOS";
    [| split; [discriminate | reflexivity]].
  read_int Hm py_int env "STATE_UPDATE_INTERVAL";
    [| split; [discriminate | reflexivity]].
  read_int Hm py_int env "APPS_UPDATE_INTERVAL";
    [| split; [discriminate | reflexivity]].
  read_int Hm py_int env "MQTT_RECONNECT_DELAY";
    [| split; [discriminate | reflexivity]].
  read_int Hm py_int env "APPLETV_RECONNECT_DELAY";
    [| split; [discriminate | reflexivity]].
  split; [| discriminate].
  intros _. eexists. split; [reflexivity |]. cbn.
  repeat split; eauto.
Qed.

Lemma config_loads_or_raises_value_error_witness :
  exists c,
    Config.__init__ Demo.py_int Demo.env_full = Started c
    /\ Config.mqtt_port c = 1883
    /\ Config.log_level c = "DEBUG".
Proof.
  destruct (proj1 (config_loads_or_raises_value_error Demo.py_int Demo.env_full
                     eq_refl) eq_refl)
    as (c & Hc & _).
  exists c. split; [exact Hc |].
  vm_compute in Hc. injection Hc as <-. split; reflexivity.
Defined.

(** X19: whatever the base topic is, the five topics of the bridge are
    pairwise different, and each is the base topic followed by a slash and
    its own name. *)
Theorem topics_never_collide (c : Config.t) :
  NoDup [ Config.topic_availability c; Config.topic_state c; Config.topic_apps c;
          Config.topic_set c; Config.topic_get c ]
  /\ map (fun name => (fstr (Config.mqtt_base_topic c) ++ String "/" name)%string)
       ["availability"; "state"; "apps"; "set"; "get"]
     = [ Config.topic_availability c; Config.topic_state c; Config.topic_apps c;
         Config.topic_set c; Config.topic_get c ].
Proof. split; [apply topics_distinct | reflexivity]. Qed.

(* ===================================================================== *)
(** * Beyond the claims: receiving and connecting *)
(* ===================================================================== *)

Lemma sup_run_eta {A : Type} (m : Sup.M A) (h : list Sup.Ev) :
  m h = (Sup.emitted m h, Sup.outcome m h).
Proof. unfold Sup.emitted, Sup.outcome. destruct (m h); reflexivity. Qed.

Lemma sup_bind_ret {A B : Type} (m : Sup.M A) (k : A -> Sup.M B)
  (h t1 : list Sup.Ev) (a : A) :
  m h = (t1, Ret a) ->
  Sup.bind m k h = (t1 ++ Sup.emitted (k a) (h ++ t1), Sup.outcome (k a) (h ++ t1)).
Proof.
  intros Hm. unfold Sup.bind, Sup.emitted, Sup.outcome. rewrite Hm.
  destruct (k a (h ++ t1)); reflexivity.
Qed.

Lemma sup_bind_raise {A B : Type} (m : Sup.M A) (k : A -> Sup.M B)
  (h t1 : list Sup.Ev) (e : exn) :
  m h = (t1, Raise e) -> Sup.bind m k h = (t1, Raise e).
Proof. intros Hm. unfold Sup.bind. rewrite Hm. reflexivity. Qed.

Lemma sup_bind_ask {A B : Type} (f : list Sup.Ev -> A) (k : A -> Sup.M B)
  (h : list Sup.Ev) :
  Sup.bind (Sup.ask f) k h = k (f h) h.
Proof.
  rewrite (sup_bind_ret (Sup.ask f) k h [] (f h) eq_refl).
  rewrite app_nil_r. simpl. symmetry. apply sup_run_eta.
Qed.

Lemma sup_count_app (p : Sup.Ev -> bool) (a b : list Sup.Ev) :
  Sup.count p (a ++ b) = (Sup.count p a + Sup.count p b)%nat.
Proof. unfold Sup.count. rewrite filter_app, length_app. reflexivity. Qed.

(** X20: [on_mqtt_message] never raises and hands a message over at most
    once: exactly when its payload decodes and both the queue and the
    loop exist, with the topic unchanged and the decoded payload.  A
    payload that does not decode leaves one error record and nothing in
    the queue. *)
Theorem on_mqtt_message_hands_over
  (w : Sup.World) (msg : Sup.RawMessage) (h : list Sup.Ev) :
  let t := Sup.emitted (Sup.on_mqtt_message w msg) h in
  Sup.outcome (Sup.on_mqtt_message w msg) h = Ret tt
  /\ (Sup.count Sup.is_enqueue t <= 1)%nat
  /\ (forall cmd,
        In (Sup.Enqueue cmd) t ->
        Sup.command_queue w = true /\ Sup.main_loop w = true
        /\ msg_topic cmd = Sup.raw_topic msg
        /\ Sup.decode_utf8 w (Sup.raw_payload msg) = inr (msg_payload cmd))
  /\ (forall payload,
        Sup.decode_utf8 w (Sup.raw_payload msg) = inr payload ->
        Sup.command_queue w = true -> Sup.main_loop w = true ->
        In (Sup.Enqueue {| msg_topic := Sup.raw_topic msg; msg_payload := payload |}) t)
  /\ (forall e,
        Sup.decode_utf8 w (Sup.raw_payload msg) = inl e ->
        t = [Sup.Log Error (Sup.MsgReceiveError e)]).
Proof.
  intros t. subst t.
  unfold Sup.emitted, Sup.outcome, Sup.on_mqtt_message, Sup.try_except, Sup.bind,
    Sup.lift, Sup.logger, Sup.emit, Sup.call, Sup.ret, Sup.raise.
  destruct (Sup.decode_utf8 w (Sup.raw_payload msg)) as [e | payload];
    [| destruct (Sup.command_queue w), (Sup.main_loop w); cbn [andb];
       try match goal with
           | |- context [Sup.env_enqueue_raises w ?x] =>
               destruct (Sup.env_enqueue_raises w x)
           end ];
    (refine (conj eq_refl (conj _ (conj _ (conj _ _))));
     [ cbn; lia
     | intros cmd Hin; cbn in Hin;
       repeat (destruct Hin as [Hin | Hin];
               [ try discriminate Hin;
                 try (injection Hin as <-; repeat split; reflexivity) | ]);
       destruct Hin
     | intros p Hp Hq Hl; try congruence;
       injection Hp as <-; cbn; tauto
     | intros e' He; try discriminate He; injection He as <-; reflexivity ]).
Qed.

Lemma wait_ticks_ends (w : Sup.World) (ticks : nat) (h : list Sup.Ev) :
  match Sup.outcome (Sup.wait_ticks w ticks) h with
  | Ret None => True
  | Ret (Some b) =>
      b = false
      /\ Sup.env_shutdown_is_set w (h ++ Sup.emitted (Sup.wait_ticks w ticks) h) = true
  | Raise e =>
      exists t,
        Sup.emitted (Sup.wait_ticks w ticks) h = t ++ [Sup.RunUntilComplete 1]
        /\ Sup.env_run_raises w (h ++ t) = Some e
  | OutOfFuel => False
  end.
Proof.
  revert h. induction ticks as [| ticks IH]; intros h.
  - exact I.
  - cbn [Sup.wait_ticks]. unfold Sup.outcome, Sup.emitted. rewrite sup_bind_ask.
    destruct (Sup.env_shutdown_is_set w h) eqn:Hs.
    + cbn. rewrite app_nil_r. auto.
    + destruct (Sup.env_run_raises w h) as [e |] eqn:Hr.
      * rewrite (sup_bind_raise _ _ h [Sup.RunUntilComplete 1] e)
          by (unfold Sup.call; rewrite Hr; reflexivity).
        cbn. exists []. rewrite app_nil_r. auto.
      * rewrite (sup_bind_ret _ _ h [Sup.RunUntilComplete 1] tt)
          by (unfold Sup.call; rewrite Hr; reflexivity).
        cbn [fst snd].
        specialize (IH (h ++ [Sup.RunUntilComplete 1])).
        destruct (Sup.outcome (Sup.wait_ticks w ticks) (h ++ [Sup.RunUntilComplete 1]))
          as [[b |] | e |]; try exact IH.
        -- rewrite app_assoc. exact IH.
        -- destruct IH as (t & Ht & He).
           exists (Sup.RunUntilComplete 1 :: t). rewrite Ht. split; [reflexivity |].
           rewrite <- He. rewrite <- app_assoc. reflexivity.
Qed.

(** One attempt of [connect_mqtt]: the [try] block of lines 198-201. *)
Lemma attempt_run (w : Sup.World) (h : list Sup.Ev) :
  let cfg := Sup.config w in
  let connecting := Sup.Log Info (Sup.MsgConnecting (Config.mqtt_host cfg) (Config.mqtt_port cfg)) in
  let connect := Sup.Connect (Config.mqtt_host cfg) (Config.mqtt_port cfg) 60 in
  Sup.bind (Sup.logger Info (Sup.MsgConnecting (Config.mqtt_host cfg) (Config.mqtt_port cfg)))
    (fun _ => Sup.bind (Sup.call connect (Sup.env_connect_raises w))
       (fun _ => Sup.bind (Sup.call Sup.LoopStart (Sup.env_loop_start_raises w))
          (fun _ => Sup.ret (Some true)))) h
  = match Sup.env_connect_raises w (h ++ [connecting]) with
    | Some e => ([connecting; connect], Raise e)
    | None =>
        match Sup.env_loop_start_raises w (h ++ [connecting; connect]) with
        | Some e => ([connecting; connect; Sup.LoopStart], Raise e)
        | None => ([connecting; connect; Sup.LoopStart], Ret (Some true))
        end
    end.
Proof.
  intros cfg connecting connect.
  unfold Sup.bind, Sup.logger, Sup.emit, Sup.call, Sup.ret. fold connecting.
  destruct (Sup.env_connect_raises w (h ++ [connecting])); [reflexivity |].
  rewrite <- app_assoc. cbn [app].
  destruct (Sup.env_loop_start_raises w (h ++ [connecting; connect])); reflexivity.
Qed.

(** The [except] clause of [connect_mqtt], lines 202-208. *)
Lemma retry_run (w : Sup.World) (e : exn) (h : list Sup.Ev) :
  let cfg := Sup.config w in
  let logs := [ Sup.Log Error (Sup.MsgConnectError e);
                Sup.Log Info (Sup.MsgRetrying (Config.mqtt_reconnect_delay cfg)) ] in
  let wait := Sup.wait_ticks w (Z.to_nat (Config.mqtt_reconnect_delay cfg)) in
  Sup.bind (Sup.logger Error (Sup.MsgConnectError e))
    (fun _ => Sup.bind (Sup.logger Info (Sup.MsgRetrying (Config.mqtt_reconnect_delay cfg)))
       (fun _ => wait)) h
  = (logs ++ Sup.emitted wait (h ++ logs), Sup.outcome wait (h ++ logs)).
Proof.
  intros cfg logs wait.
  rewrite (sup_bind_ret _ _ h [Sup.Log Error (Sup.MsgConnectError e)] tt eq_refl).
  unfold Sup.emitted at 1, Sup.outcome at 1.
  rewrite (sup_bind_ret _ _ _ [Sup.Log Info (Sup.MsgRetrying (Config.mqtt_reconnect_delay cfg))]
             tt eq_refl).
  cbn [fst snd]. rewrite <- !app_assoc. reflexivity.
Qed.

(** One round of the loop of [connect_mqtt], after the shutdown test. *)
Lemma connect_round_run (w : Sup.World) (fuel : nat) (h : list Sup.Ev) :
  Sup.env_shutdown_is_set w h = false ->
  let cfg := Sup.config w in
  let connecting := Sup.Log Info (Sup.MsgConnecting (Config.mqtt_host cfg) (Config.mqtt_port cfg)) in
  let connect := Sup.Connect (Config.mqtt_host cfg) (Config.mqtt_port cfg) 60 in
  let wait := Sup.wait_ticks w (Z.to_nat (Config.mqtt_reconnect_delay cfg)) in
  let failed (attempt : list Sup.Ev) (e : exn) :=
    let pre := attempt
               ++ [ Sup.Log Error (Sup.MsgConnectError e);
                    Sup.Log Info (Sup.MsgRetrying (Config.mqtt_reconnect_delay cfg)) ] in
    let tw := Sup.emitted wait (h ++ pre) in
    match Sup.outcome wait (h ++ pre) with
    | Ret None =>
        (pre ++ tw ++ Sup.emitted (Sup.connect_mqtt w fuel) (h ++ pre ++ tw),
         Sup.outcome (Sup.connect_mqtt w fuel) (h ++ pre ++ tw))
    | Ret (Some b) => (pre ++ tw, Ret b)
    | Raise e' => (pre ++ tw, Raise e')
    | OutOfFuel => (pre ++ tw, OutOfFuel)
    end in
  Sup.connect_mqtt w (S fuel) h
  = match Sup.env_connect_raises w (h ++ [connecting]) with
    | Some e => failed [connecting; connect] e
    | None =>
        match Sup.env_loop_start_raises w (h ++ [connecting; connect]) with
        | Some e => failed [connecting; connect; Sup.LoopStart] e
        | None => ([connecting; connect; Sup.LoopStart], Ret true)
        end
    end.
Proof.
  intros Hs cfg connecting connect wait failed.
  assert (Hfailed : forall attempt e,
            (let (t1, r) :=
               let (t2, r0) :=
                 Sup.bind (Sup.logger Error (Sup.MsgConnectError e))
                   (fun _ => Sup.bind
                               (Sup.logger Info
                                  (Sup.MsgRetrying (Config.mqtt_reconnect_delay cfg)))
                               (fun _ => wait)) (h ++ attempt) in
               (attempt ++ t2, r0) in
             match r with
             | Ret a =>
                 let (t2, r0) :=
                   match a with
                   | Some b => Sup.ret b
                   | None => Sup.connect_mqtt w fuel
                   end (h ++ t1) in
                 (t1 ++ t2, r0)
             | Raise e' => (t1, Raise e')
             | OutOfFuel => (t1, OutOfFuel)
             end) = failed attempt e).
  { intros attempt e. subst failed. cbv zeta. unfold wait, cfg.
    rewrite retry_run. cbv zeta.
    rewrite <- !app_assoc.
    match goal with
    | |- context [Sup.outcome ?m ?x] => destruct (Sup.outcome m x) as [[b |] | e' |]
    end.
    - cbn [Sup.ret]. rewrite app_nil_r, <- ?app_assoc. reflexivity.
    - rewrite (sup_run_eta (Sup.connect_mqtt w fuel)).
      rewrite <- ?app_assoc. reflexivity.
    - rewrite <- ?app_assoc. reflexivity.
    - rewrite <- ?app_assoc. reflexivity. }
  cbn [Sup.connect_mqtt]. rewrite sup_bind_ask, Hs.
  unfold Sup.bind at 1. unfold Sup.try_except.
  rewrite (attempt_run w h). cbv zeta. fold cfg. fold connecting connect. fold wait.
  destruct (Sup.env_connect_raises w (h ++ [connecting])) as [e |].
  - apply Hfailed.
  - destruct (Sup.env_loop_start_raises w (h ++ [connecting; connect])) as [e |].
    + apply Hfailed.
    + reflexivity.
Qed.

(** X21: how [connect_mqtt] can end.  It returns [True] only right after
    a [connect] and a [loop_start] that did not raise; it returns [False]
    only with the shutdown flag set; and an exception leaves it only from
    the one-second wait between two attempts, which runs inside the
    [except] clause: a failure of [connect] or [loop_start] never does. *)
Theorem connect_mqtt_ends (w : Sup.World) (fuel : nat) (h : list Sup.Ev) :
  let connect :=
    Sup.Connect (Config.mqtt_host (Sup.config w)) (Config.mqtt_port (Sup.config w)) 60 in
  let t := Sup.emitted (Sup.connect_mqtt w fuel) h in
  match Sup.outcome (Sup.connect_mqtt w fuel) h with
  | Ret true =>
      exists pre,
        t = pre ++ [connect; Sup.LoopStart]
        /\ Sup.env_connect_raises w (h ++ pre) = None
        /\ Sup.env_loop_start_raises w (h ++ pre ++ [connect]) = None
  | Ret false => Sup.env_shutdown_is_set w (h ++ t) = true
  | Raise e =>
      exists pre,
        t = pre ++ [Sup.RunUntilComplete 1]
        /\ Sup.env_run_raises w (h ++ pre) = Some e
  | OutOfFuel => True
  end.
Proof.
  intros connect t. subst t. revert h.
  induction fuel as [| fuel IH]; intros h; [exact I |].
  destruct (Sup.env_shutdown_is_set w h) eqn:Hs.
  - unfold Sup.outcome, Sup.emitted. cbn [Sup.connect_mqtt].
    rewrite sup_bind_ask, Hs. cbn. rewrite app_nil_r. exact Hs.
  - unfold Sup.outcome, Sup.emitted.
    rewrite (connect_round_run w fuel h Hs). cbv zeta. fold connect.
    set (connecting := Sup.Log Info _).
    assert (Hfailed : forall attempt e,
      let pre := attempt
                 ++ [ Sup.Log Error (Sup.MsgConnectError e);
                      Sup.Log Info
                        (Sup.MsgRetrying (Config.mqtt_reconnect_delay (Sup.config w))) ] in
      let wait := Sup.wait_ticks w (Z.to_nat (Config.mqtt_reconnect_delay (Sup.config w))) in
      let tw := Sup.emitted wait (h ++ pre) in
      let res :=
        match Sup.outcome wait (h ++ pre) with
        | Ret None =>
            (pre ++ tw ++ Sup.emitted (Sup.connect_mqtt w fuel) (h ++ pre ++ tw),
             Sup.outcome (Sup.connect_mqtt w fuel) (h ++ pre ++ tw))
        | Ret (Some b) => (pre ++ tw, Ret b)
        | Raise e' => (pre ++ tw, Raise e')
        | OutOfFuel => (pre ++ tw, OutOfFuel)
        end in
      match snd res with
      | Ret true =>
          exists p,
            fst res = p ++ [connect; Sup.LoopStart]
            /\ Sup.env_connect_raises w (h ++ p) = None
            /\ Sup.env_loop_start_raises w (h ++ p ++ [connect]) = None
      | Ret false => Sup.env_shutdown_is_set w (h ++ fst res) = true
      | Raise e0 =>
          exists p,
            fst res = p ++ [Sup.RunUntilComplete 1]
            /\ Sup.env_run_raises w (h ++ p) = Some e0
      | OutOfFuel => True
      end).
    { intros attempt e pre wait tw res. subst res.
      pose proof (wait_ticks_ends w (Z.to_nat (Config.mqtt_reconnect_delay (Sup.config w)))
                    (h ++ pre)) as Hw.
      fold wait in Hw. fold tw in Hw.
      destruct (Sup.outcome wait (h ++ pre)) as [[b |] | e' |]; cbn [fst snd].
      - destruct Hw as [-> Hw]. rewrite <- app_assoc in Hw. exact Hw.
      - specialize (IH (h ++ pre ++ tw)).
        destruct (Sup.outcome (Sup.connect_mqtt w fuel) (h ++ pre ++ tw)) as [[|] | e0 |].
        + destruct IH as (p & Hp & Hc & Hl).
          exists (pre ++ tw ++ p). rewrite Hp.
          rewrite <- !app_assoc in *. auto.
        + rewrite <- !app_assoc in *. exact IH.
        + destruct IH as (p & Hp & Hr).
          exists (pre ++ tw ++ p). rewrite Hp.
          rewrite <- !app_assoc in *. auto.
        + exact I.
      - destruct Hw as (p & Hp & Hr).
        exists (pre ++ p). rewrite Hp. rewrite <- !app_assoc in *. auto.
      - destruct Hw. }
    destruct (Sup.env_connect_raises w (h ++ [connecting])) as [e |] eqn:Hc.
    + apply Hfailed.
    + destruct (Sup.env_loop_start_raises w (h ++ [connecting; connect])) as [e |] eqn:Hl.
      * apply Hfailed.
      * cbn [fst snd]. exists [connecting]. auto.
Qed.






Lemma split_once_none (s : string) :
  Sup.split_once s = None <-> has_colon s = false.
Proof.
  induction s as [| c s IH]; cbn; [tauto |].
  destruct (c =? ":")%char; [split; discriminate |].
  destruct (Sup.split_once s) as [[a b] |]; split; intro H; try reflexivity;
    try discriminate.
  - apply IH in H. discriminate.
  - apply IH. reflexivity.
Qed.

Lemma split_once_some (s a b : string) :
  Sup.split_once s = Some (a, b)
  <-> s = (a ++ String ":" b)%string /\ has_colon a = false.
Proof.
  revert a. induction s as [| c s IH]; intros a; cbn.
  - split; [discriminate |]. intros [H _]. destruct a; discriminate.
  - destruct (c =? ":")%char eqn:Ec.
    + apply Ascii.eqb_eq in Ec. subst c. split.
      * intros H. injection H as <- <-. split; reflexivity.
      * intros [H Ha]. destruct a as [| c' a]; cbn in *.
        -- injection H as ->. reflexivity.
        -- injection H as <- _. cbn in Ha. discriminate.
    + split.
      * destruct (Sup.split_once s) as [[a' b'] |]; [| discriminate].
        intros H. injection H as <- <-.
        destruct (proj1 (IH a') eq_refl) as [-> Ha].
        cbn. rewrite Ec. split; [reflexivity | exact Ha].
      * intros [H Ha]. destruct a as [| c' a]; cbn in *.
        -- injection H as -> _. cbn in Ec. discriminate.
        -- injection H as <- ->. rewrite Ec in Ha.
           rewrite (proj2 (IH a) (conj eq_refl Ha)). reflexivity.
Qed.

(** One round of the loop of [connect_appletv], after the shutdown test:
    either the device is connected, by the last call of the round, or the
    round ends in the pause. *)
Lemma device_round_cases (w : Sup.World) (h : list Sup.Ev) :
  let cfg := Sup.config w in
  (exists atv pre found p c,
      Sup.connect_round w h
      = (pre ++ [ Sup.DeviceConnect found;
                  Sup.Log Info (Sup.MsgDeviceConnected (Sup.session_model atv));
                  Sup.Log Info (Sup.MsgDeviceOs (Sup.session_os atv)
                                                (Sup.session_version atv)) ],
         Ret (Sup.Connected atv))
      /\ Sup.env_device_connect w (h ++ pre) = inr atv
      /\ Sup.count Sup.is_scan pre = 1%nat
      /\ Sup.count Sup.is_sleep pre = 0%nat
      /\ Sup.unpack_credentials (Config.appletv_credentials cfg) = inr (p, c))
  \/ (exists pre,
         Sup.connect_round w h
         = (pre ++ [ Sup.Log Info (Sup.MsgDeviceRetrying (Config.appletv_reconnect_delay cfg));
                     Sup.Sleep (Config.appletv_reconnect_delay cfg) ],
            Ret Sup.Again)
         /\ Sup.count Sup.is_scan pre = 1%nat
         /\ Sup.count Sup.is_sleep pre = 0%nat
         /\ (forall e, Sup.unpack_credentials (Config.appletv_credentials cfg) = inl e ->
             Sup.count Sup.is_device_setup pre = 0%nat)).
Proof.
  intros cfg.
  unfold Sup.connect_round, Sup.try_except, Sup.bind, Sup.logger, Sup.emit,
    Sup.call_for, Sup.call, Sup.retry_pause, Sup.ret.
  cbn.
  destruct (Sup.env_scan w _) as [e | [| found rest]]; cbn.
  - right. eexists [_; _; _; _]. cbn. auto.
  - right. eexists [_; _; _]. cbn. auto.
  - fold cfg. destruct (Sup.unpack_credentials (Config.appletv_credentials cfg))
      as [e | [p c]] eqn:Eu; cbn.
    + right. eexists [_; _; _; _]. cbn. auto.
    + unfold Sup.lift.
      destruct (Sup.choose_protocol w (upper p)) as [e | proto];
        unfold Sup.raise, Sup.ret; cbn.
      { right. eexists [_; _; _; _]. cbn.
        repeat split; try reflexivity; intros; discriminate. }
      rewrite ?app_nil_r, <- ?app_assoc. cbn [app].
      destruct (Sup.env_set_credentials_raises w _) as [e |]; cbn.
      { right. eexists [_; _; _; _; _]. cbn.
        repeat split; try reflexivity; intros; discriminate. }
      destruct (Sup.env_device_connect w _) as [e | atv] eqn:Ed; cbn.
      { right. eexists [_; _; _; _; _; _]. cbn.
        repeat split; try reflexivity; intros; discriminate. }
      left. exists atv. eexists [_; _; _]. exists found, p, c. cbn.
      repeat split; try reflexivity. exact Ed.
Qed.

Lemma count_zero_filter (p : Sup.Ev -> bool) (t : list Sup.Ev) :
  Sup.count p t = 0%nat -> filter p t = [].
Proof. unfold Sup.count. apply length_zero_iff_nil. Qed.

(** X23: how [connect_appletv] ends.  It never raises.  It returns a
    device only as the answer of [pyatv.connect], the last call it makes;
    it returns [None] only with the shutdown event set.  Every round scans
    once, and every round that does not connect pauses once, for the
    configured delay, before the next. *)
Theorem connect_appletv_ends (w : Sup.World) (fuel : nat) (h : list Sup.Ev) :
  let pause := Sup.Sleep (Config.appletv_reconnect_delay (Sup.config w)) in
  let t := Sup.emitted (Sup.connect_appletv w fuel) h in
  match Sup.outcome (Sup.connect_appletv w fuel) h with
  | Ret (Some atv) =>
      (exists pre found,
          t = pre ++ [ Sup.DeviceConnect found;
                       Sup.Log Info (Sup.MsgDeviceConnected (Sup.session_model atv));
                       Sup.Log Info (Sup.MsgDeviceOs (Sup.session_os atv)
                                                     (Sup.session_version atv)) ]
          /\ Sup.env_device_connect w (h ++ pre) = inr atv)
      /\ exists rounds,
          Sup.count Sup.is_scan t = S rounds
          /\ filter Sup.is_sleep t = List.repeat pause rounds
  | Ret None =>
      Sup.env_shutdown_is_set w (h ++ t) = true
      /\ filter Sup.is_sleep t = List.repeat pause (Sup.count Sup.is_scan t)
  | Raise _ => False
  | OutOfFuel =>
      Sup.count Sup.is_scan t = fuel
      /\ filter Sup.is_sleep t = List.repeat pause fuel
  end.
Proof.
  intros pause. revert h.
  induction fuel as [| fuel IH]; intros h; [split; reflexivity |].
  unfold Sup.outcome, Sup.emitted. cbn [Sup.connect_appletv].
  rewrite sup_bind_ask.
  destruct (Sup.env_shutdown_is_set w h) eqn:Hs.
  { cbn. rewrite app_nil_r. auto. }
  destruct (device_round_cases w h)
    as [(atv & pre & found & p & c & Er & Ed & Hscan & Hsleep & _)
       | (pre & Er & Hscan & Hsleep & _)];
    rewrite (sup_bind_ret _ _ h _ _ Er); cbn [fst snd].
  - cbn [Sup.outcome Sup.emitted Sup.ret fst snd]. rewrite app_nil_r.
    split; [exists pre, found; auto |].
    exists 0%nat. rewrite sup_count_app, filter_app, Hscan.
    rewrite (count_zero_filter _ _ Hsleep). split; reflexivity.
  - specialize (IH (h ++ pre ++ [Sup.Log Info (Sup.MsgDeviceRetrying
                                     (Config.appletv_reconnect_delay (Sup.config w)));
                                 pause])).
    cbv zeta in IH. fold pause.
    set (round := pre ++ [_; pause]) in *.
    assert (Hround_scan : Sup.count Sup.is_scan round = 1%nat)
      by (subst round; rewrite sup_count_app, Hscan; reflexivity).
    assert (Hround_sleep : filter Sup.is_sleep round = [pause])
      by (subst round; rewrite filter_app, (count_zero_filter _ _ Hsleep); reflexivity).
    destruct (Sup.outcome (Sup.connect_appletv w fuel) (h ++ round))
      as [[atv |] | e |];
      rewrite ?sup_count_app, ?filter_app, ?Hround_sleep, ?Hround_scan.
    + destruct IH as [(pre' & found & Et & Ed) (rounds & Hn & Hf)].
      split.
      * exists (round ++ pre'), found. rewrite Et, !app_assoc.
        split; [reflexivity | exact Ed].
      * exists (S rounds). rewrite Hn, Hf. split; reflexivity.
    + destruct IH as [Hstop Hf]. rewrite app_assoc. split; [exact Hstop |].
      rewrite Hf. reflexivity.
    + exact IH.
    + destruct IH as [Hn Hf]. rewrite Hn, Hf. split; reflexivity.
Qed.

(** X24: credentials without a colon never reach the device.  The
    unpacking of [split(':', 1)] fails in every round, inside the [try],
    so [connect_appletv] neither sets credentials nor calls
    [pyatv.connect], and it ends only with the shutdown event (or goes on
    for ever). *)
Theorem credentials_need_a_colon (w : Sup.World) (fuel : nat) (h : list Sup.Ev)
  (s : string) :
  Config.appletv_credentials (Sup.config w) = Some s ->
  has_colon s = false ->
  Sup.count Sup.is_device_setup (Sup.emitted (Sup.connect_appletv w fuel) h) = 0%nat
  /\ (Sup.outcome (Sup.connect_appletv w fuel) h = Ret None
      \/ Sup.outcome (Sup.connect_appletv w fuel) h = OutOfFuel).
Proof.
  intros Hcred Hcolon.
  assert (Hu : Sup.unpack_credentials (Config.appletv_credentials (Sup.config w))
               = inl (Exn "ValueError" "not enough values to unpack (expected 2, got 1)")).
  { rewrite Hcred. unfold Sup.unpack_credentials.
    rewrite (proj2 (split_once_none s) Hcolon). reflexivity. }
  revert h. induction fuel as [| fuel IH]; intros h; [split; [reflexivity | now right] |].
  unfold Sup.outcome, Sup.emitted. cbn [Sup.connect_appletv].
  rewrite sup_bind_ask.
  destruct (Sup.env_shutdown_is_set w h).
  { split; [reflexivity | now left]. }
  destruct (device_round_cases w h)
    as [(atv & pre & found & p & c & _ & _ & _ & _ & Hp)
       | (pre & Er & _ & _ & Hsetup)].
  { rewrite Hu in Hp. discriminate. }
  rewrite (sup_bind_ret _ _ h _ _ Er). cbn [fst snd].
  match goal with
  | |- context [Sup.outcome (Sup.connect_appletv w fuel) ?x] =>
      destruct (IH x) as [Hcount Hout]
  end.
  split; [| exact Hout].
  rewrite !sup_count_app, (Hsetup _ Hu), Hcount. reflexivity.
Qed.

Lemma credentials_need_a_colon_witness :
  Sup.count Sup.is_device_setup
    (Sup.emitted (Sup.connect_appletv Sup.misconfigured 3) []) = 0%nat
  /\ (Sup.outcome (Sup.connect_appletv Sup.misconfigured 3) [] = Ret None
      \/ Sup.outcome (Sup.connect_appletv Sup.misconfigured 3) [] = OutOfFuel).
Proof.
  apply (credentials_need_a_colon Sup.misconfigured 3 [] "0123456789abcdef");
    reflexivity.
Defined.

(** X25: the credentials are split at their first colon.  When the scan
    finds a device, the text before the first colon, in upper case, names
    the protocol (a name the [Protocol] enumeration does not have falls
    back to [Protocol.Companion]), and everything after that colon is
    passed to [set_credentials], on the first device of the scan. *)
Theorem credentials_split_at_first_colon (w : Sup.World) (h : list Sup.Ev)
  (p c : string) (found : Sup.Found) (others : list Sup.Found) :
  let cfg := Sup.config w in
  let connecting := Sup.Log Info (Sup.MsgDeviceConnecting (Config.appletv_address cfg)) in
  Sup.env_scan w (h ++ [connecting]) = inr (found :: others) ->
  Config.appletv_credentials cfg = Some (p ++ String ":" c)%string ->
  has_colon p = false ->
  Sup.protocol_item_raises w (upper p) = None ->
  firstn 3 (Sup.emitted (Sup.connect_round w) h)
  = [ connecting;
      Sup.Scan (Config.appletv_id cfg) 10;
      Sup.SetCredentials found
        (if Sup.protocol_hasattr w (upper p) then Sup.Member (upper p)
         else Sup.CompanionDefault)
        c ].
Proof.
  intros cfg connecting Hscan Hcred Hcolon Hitem.
  unfold Sup.emitted, Sup.connect_round, Sup.try_except, Sup.bind, Sup.logger,
    Sup.emit, Sup.call_for, Sup.call, Sup.retry_pause, Sup.ret.
  cbn. fold cfg. fold connecting. rewrite Hscan. cbn.
  rewrite Hcred. unfold Sup.unpack_credentials.
  rewrite (proj2 (split_once_some _ p c) (conj eq_refl Hcolon)).
  unfold Sup.lift at 1. unfold Sup.ret at 1. cbn.
  unfold Sup.lift, Sup.choose_protocol. rewrite Hitem.
  destruct (Sup.protocol_hasattr w (upper p)); unfold Sup.ret; cbn;
    destruct (Sup.env_set_credentials_raises w _); cbn; try reflexivity;
    destruct (Sup.env_device_connect w _); reflexivity.
Qed.

Lemma credentials_split_at_first_colon_witness :
  firstn 3 (Sup.emitted (Sup.connect_round Sup.stubborn) [])
  = [ Sup.Log Info (Sup.MsgDeviceConnecting (Some "192.168.1.20"));
      Sup.Scan (Config.appletv_id Demo.cfg) 10;
      Sup.SetCredentials {| Sup.found_name := "Living Room" |} Sup.CompanionDefault "0123" ].
Proof.
  apply (credentials_split_at_first_colon Sup.stubborn [] "companion" "0123"
           {| Sup.found_name := "Living Room" |} []); reflexivity.
Defined.
